(** * Poker_game: cards, decks, hands and the sampling loops

    A shallow embedding of [src/Poker_game/creation_of_deck.py] and
    [src/Poker_game/creation_of_game.py].

    Python objects are modelled as the code uses them:
    - a [Card] is immutable after [__init__], so it is a value (a record of
      its two private attributes); ranks and suits are Python strings, also
      the ones that [__init__] is given and rejects;
    - a [Deck] and a [Hand] each own a Python list in [_cards]; lists are
      mutable and can be aliased, so they live in a store ([heap]) and the
      objects hold a reference ([loc]) to them;
    - the module [random] is a global generator: the store carries the
      stream of raw draws that [randbelow] consumes;
    - a raised exception ends the computation and leaves the store as it was
      at the point of the raise.

    Strings are byte strings; a suit symbol is the UTF-8 encoding of its code
    point, which preserves (in)equality of the Python strings. *)

From Stdlib Require Import QArith.
From stdpp Require Import base list strings gmap sorting.

Local Open Scope nat_scope.

(** ** Exceptions and results *)

(** The Python exceptions the modelled code can raise. [SystemError] stands
    for a read through a reference that is not allocated, which no Python
    program can perform; it only makes the store operations total. *)
Inductive exn : Set :=
| ValueError
| IndexError
| ZeroDivisionError
| SystemError.

Inductive result (A : Type) : Type :=
| Ok (a : A)
| Raise (e : exn).
Arguments Ok {A} a.
Arguments Raise {A} e.

#[global] Instance result_ret : MRet result := λ A a, Ok a.
#[global] Instance result_bind : MBind result := λ A B f r,
  match r with
  | Ok a => f a
  | Raise e => Raise e
  end.

#[global] Instance nat_gt_dec : RelDecision gt := λ i j, decide (j < i).

(** Monadic left fold: a [for] loop over [l] that threads the local
    variable [b]. *)
Fixpoint foldlM {M : Type → Type} `{!MBind M, !MRet M} {A B : Type}
    (f : B → A → M B) (b : B) (l : list A) : M B :=
  match l with
  | [] => mret b
  | a :: l' => b' ← f b a; foldlM f b' l'
  end.

(** ** class Card *)

Module Card.

Definition RANKS : list string :=
  ["2"; "3"; "4"; "5"; "6"; "7"; "8"; "9"; "10"; "J"; "Q"; "K"; "A"].
Definition SUITS : list string := ["♣"; "♦"; "♥"; "♠"].

Record t : Set := mk { _rank : string; _suit : string }.

#[global] Instance t_eq_dec : EqDecision t.
Proof. solve_decision. Defined.

(** [list.index]: position of the first element equal to [x], and
    [ValueError] when there is none. *)
Fixpoint index (l : list string) (x : string) : result nat :=
  match l with
  | [] => Raise ValueError
  | y :: l' => if bool_decide (y = x) then Ok 0 else n ← index l' x; Ok (S n)
  end.

Definition __init__ (rank suit : string) : result t :=
  if bool_decide (rank ∉ RANKS) then Raise ValueError
  else if bool_decide (suit ∉ SUITS) then Raise ValueError
  else Ok {| _rank := rank; _suit := suit |}.

Definition rank (self : t) : string := _rank self.
Definition suit (self : t) : string := _suit self.

(** [f"{self._rank}{self._suit}"] *)
Definition __str__ (self : t) : string := _rank self +:+ _suit self.

Definition __repr__ (self : t) : string := __str__ self.

Definition __eq__ (self other : t) : bool :=
  bool_decide (rank self = rank other).

Definition __lt__ (self other : t) : result bool :=
  i ← index RANKS (rank self);
  j ← index RANKS (rank other);
  Ok (bool_decide (i < j)).

Definition __gt__ (self other : t) : result bool :=
  i ← index RANKS (rank self);
  j ← index RANKS (rank other);
  Ok (bool_decide (i > j)).

End Card.

(** ** The store *)

Definition loc : Set := positive.

(** [heap]: the Python lists of cards, by reference.
    [random]: the raw draws of the global generator, in order.
    [drawn]: how many of them have been consumed. *)
Record world : Type := World {
  heap : gmap loc (list Card.t);
  random : N → nat;
  drawn : N
}.

Definition set_heap (f : gmap loc (list Card.t) → gmap loc (list Card.t))
    (σ : world) : world :=
  {| heap := f (heap σ); random := random σ; drawn := drawn σ |}.

(** Computations over the store that may raise. *)
Definition M (A : Type) : Type := world → result A * world.

#[global] Instance M_ret : MRet M := λ A a σ, (Ok a, σ).
#[global] Instance M_bind : MBind M := λ A B f m σ,
  match m σ with
  | (Ok a, σ') => f a σ'
  | (Raise e, σ') => (Raise e, σ')
  end.

Definition lift {A : Type} (r : result A) : M A := λ σ, (r, σ).

(** A reference that is not in use: one past the largest one in use. *)
Definition fresh_loc (h : gmap loc (list Card.t)) : loc :=
  Pos.succ (map_fold (λ l _ m, Pos.max l m) 1%positive h).

(** A new list object holding [cs]. *)
Definition alloc (cs : list Card.t) : M loc := λ σ,
  let l := fresh_loc (heap σ) in
  (Ok l, set_heap <[l:=cs]> σ).

Definition load (l : loc) : M (list Card.t) := λ σ,
  match heap σ !! l with
  | Some cs => (Ok cs, σ)
  | None => (Raise SystemError, σ)
  end.

Definition store (l : loc) (cs : list Card.t) : M unit := λ σ,
  (Ok (), set_heap <[l:=cs]> σ).

(** [x[i]] for a non-negative [i]. *)
Definition getitem (l : loc) (i : nat) : M Card.t :=
  cs ← load l;
  match cs !! i with
  | Some c => mret c
  | None => lift (Raise IndexError)
  end.

(** [x.pop(i)] for a non-negative [i]. *)
Definition list_pop (l : loc) (i : nat) : M Card.t :=
  cs ← load l;
  match cs !! i with
  | Some c => store l (delete i cs);; mret c
  | None => lift (Raise IndexError)
  end.

(** *** sorted

    [sorted(iterable)] builds a new list from the elements of the iterable
    and sorts that list in place, comparing with [<] only; an exception of
    [<] ends the sort. CPython's sort is stable, and on a list this short it
    is an insertion sort: each element goes after the elements of the
    sorted prefix that are not greater. The model finds that place by a scan
    from the front where CPython searches by bisection; on cards, where [<]
    is the order of the rank indexes, both find the same place. *)
Fixpoint insert (x : Card.t) (l : list Card.t) : result (list Card.t) :=
  match l with
  | [] => Ok [x]
  | y :: l' =>
      b ← Card.__lt__ x y;
      if b : bool then Ok (x :: y :: l') else r ← insert x l'; Ok (y :: r)
  end.

Definition sort_cards (cs : list Card.t) : result (list Card.t) :=
  foldlM (λ acc x, insert x acc) [] cs.

Definition list_sort (l : loc) : M unit :=
  cs ← load l;
  cs' ← lift (sort_cards cs);
  store l cs'.

Definition sorted (iterable : loc) : M loc :=
  cs ← load iterable;
  l ← alloc cs;
  list_sort l;;
  mret l.

(** *** random.shuffle

    [random.shuffle(x)] of the standard library:
    [for i in reversed(range(1, len(x))): j = randbelow(i + 1);
     x[i], x[j] = x[j], x[i]]. *)
Definition randbelow (n : nat) : M nat := λ σ,
  (Ok (random σ (drawn σ) `mod` n),
   {| heap := heap σ; random := random σ; drawn := N.succ (drawn σ) |}).

Definition swap (x : list Card.t) (i j : nat) : list Card.t :=
  match x !! j, x !! i with
  | Some xj, Some xi => <[j:=xi]> (<[i:=xj]> x)
  | _, _ => x
  end.

Fixpoint shuffle_from (l : loc) (i : nat) : M unit :=
  match i with
  | 0 => mret ()
  | S i' =>
      j ← randbelow (i + 1);
      x ← load l;
      store l (swap x i j);;
      shuffle_from l i'
  end.

Definition random_shuffle (l : loc) : M unit :=
  x ← load l;
  shuffle_from l (length x - 1).

(** ** class Deck *)

Module Deck.

Record t : Set := mk { _cards : loc }.

Definition __init__ : M t :=
  rows ← lift (mapM (λ suit, mapM (λ rank, Card.__init__ rank suit)
                                   Card.RANKS) Card.SUITS);
  l ← alloc (concat rows);
  mret {| _cards := l |}.

Definition cards (self : t) : loc := _cards self.

Definition shuffle (self : t) : M unit := random_shuffle (_cards self).

Definition deal (self : t) : M Card.t := list_pop (_cards self) 0.

End Deck.

(** ** class Hand *)

Module Hand.

Record t : Set := mk { _cards : loc }.

Definition __init__ (deck : Deck.t) : M t :=
  cs ← mapM (λ _ : nat, Deck.deal deck) (seq 0 5);
  l ← alloc cs;
  mret {| _cards := l |}.

Definition cards (self : t) : loc := _cards self.

(** [all(...)] over a generator that walks the list: the conjunction of
    the comparisons, which have no effect. *)
Definition is_flush (self : t) : M bool :=
  c0 ← getitem (cards self) 0;
  let first_suit := Card.suit c0 in
  cs ← load (cards self);
  mret (forallb (λ card, bool_decide (Card.suit card = first_suit)) cs).

Definition num_matches (self : t) : M nat :=
  foldlM (λ matches i,
    foldlM (λ matches j,
      if bool_decide (i ≠ j) then
        ci ← getitem (cards self) i;
        cj ← getitem (cards self) j;
        if bool_decide (Card.rank ci = Card.rank cj)
        then mret (matches + 1) else mret matches
      else mret matches) matches (seq 0 5)) 0 (seq 0 5).

Definition is_pair (self : t) : M bool :=
  n ← num_matches self; mret (bool_decide (n = 2)).

Definition is_2pair (self : t) : M bool :=
  n ← num_matches self; mret (bool_decide (n = 4)).

Definition is_trips (self : t) : M bool :=
  n ← num_matches self; mret (bool_decide (n = 6)).

Definition is_quads (self : t) : M bool :=
  n ← num_matches self; mret (bool_decide (n = 12)).

Definition is_full_house (self : t) : M bool :=
  n ← num_matches self; mret (bool_decide (n = 8)).

(** [high - low] is a difference of Python integers, so it is taken in
    [Z]. The right operand of [and] is evaluated only if the left one
    holds. *)
Definition is_straight (self : t) : M bool :=
  sorted_cards ← sorted (cards self);
  c4 ← getitem sorted_cards 4;
  high ← lift (Card.index Card.RANKS (Card.rank c4));
  c0 ← getitem sorted_cards 0;
  low ← lift (Card.index Card.RANKS (Card.rank c0));
  n ← num_matches self;
  mret (bool_decide (n = 0) && bool_decide (Z.of_nat high - Z.of_nat low = 4)%Z).

End Hand.

(** ** The sampling loops

    Both loops of the script have the same shape and differ in the
    predicate only:
    [while matches < 1000: deck = Deck(); deck.shuffle(); hand = Hand(deck);
     trials += 1; if pred(hand): matches += 1]. *)

(** One pass through the loop body, from the counters before to the
    counters after. *)
Definition trial (pred : Hand.t → M bool) (matches trials : nat)
    : M (nat * nat) :=
  deck ← Deck.__init__;
  Deck.shuffle deck;;
  hand ← Hand.__init__ deck;
  let trials := trials + 1 in
  b ← pred hand;
  if b : bool then mret (matches + 1, trials) else mret (matches, trials).

(** How a run of the [while] loop cut after a number of passes ended: the
    loop condition became false ([Exited]), or the passes ran out with the
    condition still true ([Unfinished]); both with the counters. *)
Inductive loop_result : Set :=
| Exited (matches trials : nat)
| Unfinished (matches trials : nat).

Fixpoint while_loop (pred : Hand.t → M bool) (fuel matches trials : nat)
    : M loop_result :=
  if bool_decide (matches < 1000) then
    match fuel with
    | 0 => mret (Unfinished matches trials)
    | S fuel' =>
        mt ← trial pred matches trials;
        while_loop pred fuel' mt.1 mt.2
    end
  else mret (Exited matches trials).

(** [100 * matches / trials]: true division of Python integers, as the exact
    quotient (the rounding to a float is not modelled). *)
Definition estimated_probability (matches trials : nat) : result Q :=
  if bool_decide (trials = 0) then Raise ZeroDivisionError
  else Ok (Qmake (100 * Z.of_nat matches) (Pos.of_nat trials)).

(** A whole loop with its report: the final [matches], [trials] and
    [estimated_probability]. *)
Definition simulation (pred : Hand.t → M bool) (fuel : nat)
    : M (option (nat * nat * Q)) :=
  r ← while_loop pred fuel 0 0;
  match r with
  | Unfinished _ _ => mret None
  | Exited matches trials =>
      p ← lift (estimated_probability matches trials);
      mret (Some (matches, trials, p))
  end.


Definition full_house_simulation : nat → M (option (nat * nat * Q)) :=
  simulation Hand.is_full_house.

(** ** Vocabulary of the specification *)

(** A card that [Card.__init__] accepts. *)
Definition valid (c : Card.t) : Prop :=
  Card.rank c ∈ Card.RANKS ∧ Card.suit c ∈ Card.SUITS.

#[global] Instance valid_dec (c : Card.t) : Decision (valid c).
Proof. unfold valid. apply _. Defined.

(** The 52 (rank, suit) combinations, suit by suit. *)
Definition standard_deck : list Card.t :=
  suit ← Card.SUITS; rank ← Card.RANKS; [Card.mk rank suit].

(** Position of a card's rank in [RANKS] (0 for a rank that is not there). *)
Definition rank_index (c : Card.t) : nat :=
  match Card.index Card.RANKS (Card.rank c) with
  | Ok i => i
  | Raise _ => 0
  end.

(** Counting in a list [rs] of ranks. *)
Section rank_lists.

Context {A : Type} `{EqDecision A}.

(** The number of ordered pairs of distinct positions with equal
    elements. *)
Definition ordered_pairs (rs : list A) : nat :=
  length (filter (λ p : nat * nat, p.1 ≠ p.2 ∧ rs !! p.1 = rs !! p.2)
                 (i ← seq 0 (length rs); j ← seq 0 (length rs); [(i, j)])).

(** How many elements of [rs] are [r]. *)
Definition multiplicity (r : A) (rs : list A) : nat :=
  length (filter (λ x, x = r) rs).

(** The elements of [rs], each once, in order of first occurrence. *)
Fixpoint distinct (rs : list A) : list A :=
  match rs with
  | [] => []
  | r :: rs' => r :: filter (λ x, x ≠ r) (distinct rs')
  end.

(** The multiplicities of the elements that occur in [rs], largest
    first. *)
Definition profile (rs : list A) : list nat :=
  reverse (merge_sort (≤) ((λ r, multiplicity r rs) <$> distinct rs)).

(** Position of the first occurrence of [r] in [rs]. *)
Fixpoint first_index (rs : list A) (r : A) : nat :=
  match rs with
  | [] => 0
  | x :: rs' => if decide (x = r) then 0 else S (first_index rs' r)
  end.

(** The equality pattern of [rs]: each element replaced by the position of
    its first occurrence. *)
Definition pattern (rs : list A) : list nat := first_index rs <$> rs.

End rank_lists.

(** The number of ordered pairs of distinct positions whose cards share a
    rank. *)
Definition ordered_rank_pairs (cs : list Card.t) : nat :=
  ordered_pairs (Card.rank <$> cs).

(** The multiplicities of the ranks that occur in [cs], largest first:
    how many cards of each rank the hand holds. *)
Definition rank_profile (cs : list Card.t) : list nat :=
  profile (Card.rank <$> cs).

Inductive category : Set :=
| NoPair | OnePair | TwoPair | Trips | FullHouse | Quads.

Definition category_profile (k : category) : list nat :=
  match k with
  | NoPair => [1; 1; 1; 1; 1]
  | OnePair => [2; 1; 1; 1]
  | TwoPair => [2; 2; 1]
  | Trips => [3; 1; 1]
  | FullHouse => [3; 2]
  | Quads => [4; 1]
  end.

Definition category_matches (k : category) : nat :=
  match k with
  | NoPair => 0
  | OnePair => 2
  | TwoPair => 4
  | Trips => 6
  | FullHouse => 8
  | Quads => 12
  end.

#[global] Instance category_eq_dec : EqDecision category.
Proof. solve_decision. Defined.

Definition categories : list category :=
  [NoPair; OnePair; TwoPair; Trips; FullHouse; Quads].

(** The equality patterns of the lists of five elements, and the check that
    a pattern is five of a kind or falls in a category. *)
Definition patterns5 : list (list nat) :=
  a ← seq 0 5; b ← seq 0 5; c ← seq 0 5; d ← seq 0 5; e ← seq 0 5;
  [[a; b; c; d; e]].

Definition category_check (ns : list nat) : bool :=
  bool_decide (ns = replicate 5 (hd 0 ns))
  || existsb (λ k, bool_decide (ordered_pairs ns = category_matches k)
                   && bool_decide (profile ns = category_profile k))
       categories.

(** Rank index of the highest and of the lowest card of [cs]. *)
Definition highest (cs : list Card.t) : nat :=
  foldr Nat.max 0 (rank_index <$> cs).

Definition lowest (cs : list Card.t) : nat :=
  foldr Nat.min (length Card.RANKS) (rank_index <$> cs).

(** Order of the cards by rank index, as [sorted] leaves them. *)
Definition rank_le (a b : Card.t) : Prop := rank_index a ≤ rank_index b.

(** A computation that leaves the store as it found it, whatever it
    returns or raises. *)
Definition read_only {A : Type} (m : M A) : Prop := ∀ σ, (m σ).2 = σ.


(** The list that [random.shuffle] leaves of [x] when it starts at
    position [i] and the generator's draws are [g n], [g (n + 1)], ... *)
Fixpoint shuffle_list (g : N → nat) (n : N) (i : nat) (x : list Card.t)
    : list Card.t :=
  match i with
  | 0 => x
  | S i' => shuffle_list g (N.succ n) i' (swap x i (g n `mod` (i + 1)))
  end.

(** From now on the generator repeats the 51 draws [d 0], ..., [d 50]: every
    shuffle of a deck of 52 cards meets the same draws. *)
Definition periodic_draws (d : nat → nat) (σ : world) : Prop :=
  ∀ (n : N) (j : nat),
    j < 51 → random σ (drawn σ + 51 * n + N.of_nat j)%N = d j.

(** For each element of [rs] the number of other elements equal to it,
    summed. *)
Definition equal_others {A : Type} `{EqDecision A} (rs : list A) : nat :=
  sum_list ((λ r, multiplicity r rs - 1) <$> rs).

(** [h1 = Hand(deck); h2 = Hand(deck)] *)
Definition two_hands (deck : Deck.t) : M (Hand.t * Hand.t) :=
  h1 ← Hand.__init__ deck;
  h2 ← Hand.__init__ deck;
  mret (h1, h2).

(** ** Sample stores *)

(** No list yet, and a generator that draws 0 forever. *)
Definition empty_world : world :=
  {| heap := ∅; random := λ _, 0; drawn := 0%N |}.

(** A store with one list, [cs]; [sample_hand] is the hand that holds
    it. *)
Definition world_of (cs : list Card.t) : world :=
  {| heap := {[1%positive := cs]}; random := λ _, 0; drawn := 0%N |}.

Definition sample_hand : Hand.t := Hand.mk 1%positive.

Definition ace_low : list Card.t :=
  [Card.mk "A" "♠"; Card.mk "2" "♣"; Card.mk "3" "♦"; Card.mk "4" "♥";
   Card.mk "5" "♠"].

Definition twos_and_threes : list Card.t :=
  [Card.mk "2" "♣"; Card.mk "2" "♦"; Card.mk "3" "♣"; Card.mk "3" "♦";
   Card.mk "3" "♥"].

(** A store with two lists, the cards of [ace_low] in two orders, and the
    hand that holds the second. *)
Definition two_orders_world : world :=
  {| heap := {[1%positive := ace_low; 2%positive := reverse ace_low]};
     random := λ _, 0; drawn := 0%N |}.

Definition second_hand : Hand.t := Hand.mk 2%positive.

(** Draws that make every shuffle of a new deck put 2♣ 3♣ 2♥ 3♦ 2♦ in
    front: the [j]-th draw of a shuffle is for position [i = 51 - j], and it
    is [i] itself (no move), but 2, 3 and 4 for the positions 26, 14 and 13
    of 2♥, 3♦ and 2♦. *)
Definition full_house_period (j : nat) : nat :=
  let i := 51 - j in
  if bool_decide (i = 26) then 2
  else if bool_decide (i = 14) then 3
  else if bool_decide (i = 13) then 4
  else i.

Definition full_house_draws (k : N) : nat :=
  full_house_period (N.to_nat (k `mod` 51)).

Definition full_house_world : world :=
  {| heap := ∅; random := full_house_draws; drawn := 0%N |}.

(** [deck = Deck()] followed by [n] times [Hand(deck)]. *)
Definition deck_after_hands (n : nat) : M Deck.t :=
  deck ← Deck.__init__;
  mapM (λ _ : nat, Hand.__init__ deck) (seq 0 n);;
  mret deck.

(** In [empty_world] the deck that [Deck()] returns, the store it leaves,
    the store after one hand and that hand, and the store after ten hands,
    when the deck is down to two cards. *)
Definition new_deck : Deck.t := Deck.mk 2%positive.

Definition new_deck_world : world := (Deck.__init__ empty_world).2.

Definition first_hand : Hand.t := Hand.mk 3%positive.

Definition first_hand_world : world := (deck_after_hands 1 empty_world).2.

Definition short_deck_world : world := (deck_after_hands 10 empty_world).2.

(** * Properties *)

(** Settle a decidable closed proposition by evaluating its decision
    procedure. *)
Ltac by_compute := apply (bool_decide_unpack _); vm_compute; exact I.

(** ** Cards *)

Lemma index_elem_of (l : list string) (x : string) :
  x ∈ l → ∃ i, Card.index l x = Ok i ∧ l !! i = Some x.
Proof.
  induction l as [|y l IH]; [by intros ?%elem_of_nil|].
  intros Hx. simpl. case_bool_decide as Hy.
  - exists 0. by subst.
  - apply elem_of_cons in Hx as [->|Hx]; [done|].
    destruct (IH Hx) as (i & -> & Hi). by exists (S i).
Qed.

Lemma index_not_elem_of (l : list string) (x : string) :
  x ∉ l → Card.index l x = Raise ValueError.
Proof.
  induction l as [|y l IH]; [done|].
  intros [Hy Hx]%not_elem_of_cons. simpl.
  case_bool_decide; [done|]. by rewrite IH.
Qed.

Lemma RANKS_NoDup : NoDup Card.RANKS.
Proof. by_compute. Qed.

Lemma SUITS_NoDup : NoDup Card.SUITS.
Proof. by_compute. Qed.

Lemma index_rank_index (c : Card.t) :
  Card.rank c ∈ Card.RANKS →
  Card.index Card.RANKS (Card.rank c) = Ok (rank_index c)
  ∧ Card.RANKS !! rank_index c = Some (Card.rank c).
Proof.
  intros (i & Hi & Hl)%index_elem_of. unfold rank_index. by rewrite Hi.
Qed.

Lemma rank_index_lt (c : Card.t) :
  Card.rank c ∈ Card.RANKS → rank_index c < 13.
Proof.
  intros [_ Hl]%index_rank_index. by apply lookup_lt_Some in Hl.
Qed.

Lemma rank_index_inj (a b : Card.t) :
  Card.rank a ∈ Card.RANKS → Card.rank b ∈ Card.RANKS →
  rank_index a = rank_index b → Card.rank a = Card.rank b.
Proof.
  intros [_ Ha]%index_rank_index [_ Hb]%index_rank_index Hab.
  rewrite Hab in Ha. congruence.
Qed.

Lemma Card_init_valid (rank suit : string) (c : Card.t) :
  Card.__init__ rank suit = Ok c ↔
  c = Card.mk rank suit ∧ rank ∈ Card.RANKS ∧ suit ∈ Card.SUITS.
Proof.
  unfold Card.__init__. rewrite !bool_decide_not.
  destruct (bool_decide_reflect (rank ∈ Card.RANKS)),
    (bool_decide_reflect (suit ∈ Card.SUITS)); simpl; intuition congruence.
Qed.

Lemma lt_rank_index (a b : Card.t) :
  Card.rank a ∈ Card.RANKS → Card.rank b ∈ Card.RANKS →
  Card.__lt__ a b = Ok (bool_decide (rank_index a < rank_index b)).
Proof.
  intros [Ha _]%index_rank_index [Hb _]%index_rank_index.
  unfold Card.__lt__. by rewrite Ha, Hb.
Qed.

Lemma gt_rank_index (a b : Card.t) :
  Card.rank a ∈ Card.RANKS → Card.rank b ∈ Card.RANKS →
  Card.__gt__ a b = Ok (bool_decide (rank_index a > rank_index b)).
Proof.
  intros [Ha _]%index_rank_index [Hb _]%index_rank_index.
  unfold Card.__gt__. by rewrite Ha, Hb.
Qed.

(** C7. There are 13 ranks and 4 suits. With a rank and a suit of these,
    [Card(rank, suit)] returns a card whose [rank] and [suit] are the given
    ones; with a rank or a suit that is not, it raises [ValueError] (the
    InvalidValue error of the specification). *)
Theorem Card_init_spec (rank suit : string) :
  length Card.RANKS = 13 ∧ length Card.SUITS = 4 ∧
  (rank ∈ Card.RANKS → suit ∈ Card.SUITS →
     ∃ c, Card.__init__ rank suit = Ok c
          ∧ Card.rank c = rank ∧ Card.suit c = suit) ∧
  (rank ∉ Card.RANKS ∨ suit ∉ Card.SUITS →
     Card.__init__ rank suit = Raise ValueError).
Proof.
  split_and!; [done..| |].
  - intros Hr Hs. exists (Card.mk rank suit). split; [|done].
    by apply Card_init_valid.
  - unfold Card.__init__. rewrite !bool_decide_not.
    destruct (bool_decide_reflect (rank ∈ Card.RANKS)),
      (bool_decide_reflect (suit ∈ Card.SUITS)); simpl; intuition congruence.
Qed.

Lemma Card_init_spec_witness :
  (∃ c, Card.__init__ "Q" "♥" = Ok c
        ∧ Card.rank c = "Q" ∧ Card.suit c = "♥")
  ∧ Card.__init__ "1" "♥" = Raise ValueError
  ∧ Card.__init__ "Q" "H" = Raise ValueError.
Proof.
  split_and!.
  - apply (Card_init_spec "Q" "♥"); by_compute.
  - apply (Card_init_spec "1" "♥"). left. by_compute.
  - apply (Card_init_spec "Q" "H"). right. by_compute.
Defined.

(** C8. For cards [a], [b], [c] (built by [Card.__init__], so with a rank of
    [RANKS]): [a == b] exactly when the ranks are equal, whatever the suits;
    [a < b] and [a > b] compare the positions of the ranks in [RANKS]; and
    these make a total order by rank: [<] is irreflexive and transitive,
    [a > b] is [b < a], and exactly one of [a < b], [a == b], [a > b]
    holds. *)
Theorem Card_order (a b c : Card.t) :
  valid a → valid b → valid c →
  (Card.__eq__ a b = true ↔ Card.rank a = Card.rank b) ∧
  (Card.__eq__ a b = true ↔ rank_index a = rank_index b) ∧
  Card.__lt__ a b = Ok (bool_decide (rank_index a < rank_index b)) ∧
  Card.__gt__ a b = Ok (bool_decide (rank_index a > rank_index b)) ∧
  Card.__lt__ a a = Ok false ∧
  (Card.__lt__ a b = Ok true → Card.__lt__ b c = Ok true →
     Card.__lt__ a c = Ok true) ∧
  Card.__gt__ a b = Card.__lt__ b a ∧
  (Card.__lt__ a b = Ok true ∧ Card.__eq__ a b = false
     ∧ Card.__gt__ a b = Ok false
   ∨ Card.__lt__ a b = Ok false ∧ Card.__eq__ a b = true
     ∧ Card.__gt__ a b = Ok false
   ∨ Card.__lt__ a b = Ok false ∧ Card.__eq__ a b = false
     ∧ Card.__gt__ a b = Ok true).
Proof.
  intros [Ha _] [Hb _] [Hc _].
  assert (Card.__eq__ a b = true ↔ rank_index a = rank_index b) as Heq.
  { unfold Card.__eq__. rewrite bool_decide_eq_true. split.
    - unfold rank_index. by intros ->.
    - by apply rank_index_inj. }
  rewrite !lt_rank_index, !gt_rank_index by done.
  split_and!; try done.
  - unfold Card.__eq__. by rewrite bool_decide_eq_true.
  - by rewrite bool_decide_false by lia.
  - intros [= ?%bool_decide_eq_true] [= ?%bool_decide_eq_true].
    by rewrite bool_decide_true by lia.
  - destruct (lt_eq_lt_dec (rank_index a) (rank_index b)) as [[?|?]|?].
    + left. rewrite bool_decide_true, bool_decide_false by (unfold gt; lia).
      split_and!; [done| |done].
      apply not_true_is_false. rewrite Heq. lia.
    + right; left.
      rewrite !bool_decide_false by (unfold gt; lia). by rewrite (proj2 Heq).
    + right; right.
      rewrite bool_decide_false, bool_decide_true by (unfold gt; lia).
      split_and!; [done| |done].
      apply not_true_is_false. rewrite Heq. lia.
Qed.

Lemma Card_order_witness :
  Card.__eq__ (Card.mk "9" "♣") (Card.mk "9" "♠") = true
  ∧ Card.__lt__ (Card.mk "9" "♣") (Card.mk "10" "♣") = Ok true
  ∧ Card.__gt__ (Card.mk "A" "♦") (Card.mk "K" "♦") = Ok true.
Proof.
  assert (∀ r s, bool_decide (r ∈ Card.RANKS) = true →
                 bool_decide (s ∈ Card.SUITS) = true → valid (Card.mk r s))
    as Hv.
  { intros r s ?%bool_decide_eq_true ?%bool_decide_eq_true. by split. }
  split_and!.
  - apply (Card_order (Card.mk "9" "♣") (Card.mk "9" "♠") (Card.mk "9" "♣"));
      [by apply Hv; vm_compute..|reflexivity].
  - rewrite (proj1 (proj2 (proj2 (Card_order (Card.mk "9" "♣")
      (Card.mk "10" "♣") (Card.mk "9" "♣") ltac:(by apply Hv; vm_compute)
      ltac:(by apply Hv; vm_compute) ltac:(by apply Hv; vm_compute))))).
    reflexivity.
  - rewrite (proj1 (proj2 (proj2 (proj2 (Card_order (Card.mk "A" "♦")
      (Card.mk "K" "♦") (Card.mk "9" "♣") ltac:(by apply Hv; vm_compute)
      ltac:(by apply Hv; vm_compute) ltac:(by apply Hv; vm_compute)))))).
    reflexivity.
Defined.

(** ** The store *)

Lemma bind_run {A B : Type} (m : M A) (f : A → M B) (σ : world) :
  (m ≫= f) σ =
    match m σ with
    | (Ok a, σ') => f a σ'
    | (Raise e, σ') => (Raise e, σ')
    end.
Proof. done. Qed.

Lemma bind_Ok {A B : Type} (m : M A) (f : A → M B) (σ σ' : world) (a : A) :
  m σ = (Ok a, σ') → (m ≫= f) σ = f a σ'.
Proof. unfold mbind, M_bind. by intros ->. Qed.

Lemma bind_Raise {A B : Type} (m : M A) (f : A → M B) (σ σ' : world)
    (e : exn) :
  m σ = (Raise e, σ') → (m ≫= f) σ = (Raise e, σ').
Proof. unfold mbind, M_bind. by intros ->. Qed.

Lemma set_heap_insert_id (σ : world) (l : loc) (cs : list Card.t) :
  heap σ !! l = Some cs → set_heap <[l:=cs]> σ = σ.
Proof.
  intros H. destruct σ as [h g n]. unfold set_heap. simpl in *.
  by rewrite insert_id.
Qed.

Lemma set_heap_set_heap (σ : world) (l : loc) (cs cs' : list Card.t) :
  set_heap <[l:=cs']> (set_heap <[l:=cs]> σ) = set_heap <[l:=cs']> σ.
Proof. unfold set_heap. simpl. by rewrite insert_insert_eq. Qed.

Lemma fresh_loc_fresh (h : gmap loc (list Card.t)) : h !! fresh_loc h = None.
Proof.
  unfold fresh_loc.
  cut (∀ l, is_Some (h !! l) →
            (l ≤ map_fold (λ l _ m, Pos.max l m) 1 h)%positive).
  { intros Hle. apply eq_None_not_Some. intros ?%Hle. lia. }
  apply (map_fold_weak_ind (λ r (m : gmap loc (list Card.t)),
           ∀ l, is_Some (m !! l) → (l ≤ r)%positive)).
  - intros l. rewrite lookup_empty. by intros [? ?].
  - intros i x m r _ IH l. destruct (decide (l = i)) as [->|Hne]; [lia|].
    rewrite lookup_insert_ne by done. intros ?%IH. lia.
Qed.

Lemma load_run (l : loc) (σ : world) (cs : list Card.t) :
  heap σ !! l = Some cs → load l σ = (Ok cs, σ).
Proof. unfold load. by intros ->. Qed.

Lemma getitem_run (l : loc) (i : nat) (σ : world) (cs : list Card.t) :
  heap σ !! l = Some cs →
  getitem l i σ = (match cs !! i with
                   | Some c => Ok c
                   | None => Raise IndexError
                   end, σ).
Proof.
  intros H. unfold getitem. rewrite (bind_Ok _ _ _ _ _ (load_run _ _ _ H)).
  by destruct (cs !! i).
Qed.

(** ** Decks *)

Lemma deal_cons (deck : Deck.t) (σ : world) (c : Card.t) (cs : list Card.t) :
  heap σ !! Deck.cards deck = Some (c :: cs) →
  Deck.deal deck σ = (Ok c, set_heap <[Deck.cards deck:=cs]> σ).
Proof.
  intros H. unfold Deck.deal, list_pop.
  by rewrite (bind_Ok _ _ _ _ _ (load_run _ _ _ H)).
Qed.

Lemma deal_nil (deck : Deck.t) (σ : world) :
  heap σ !! Deck.cards deck = Some [] →
  Deck.deal deck σ = (Raise IndexError, σ).
Proof.
  intros H. unfold Deck.deal, list_pop.
  by rewrite (bind_Ok _ _ _ _ _ (load_run _ _ _ H)).
Qed.

Lemma mapM_cons_run {A B : Type} (f : A → M B) (x : A) (xs : list A) :
  mapM f (x :: xs) = f x ≫= λ y, mapM f xs ≫= λ k, mret (y :: k).
Proof. done. Qed.

(** [n] calls of [deal] in a row, as a comprehension makes them: the cards
    come front to back; when the deck runs out the comprehension raises and
    the deck stays empty. *)
Lemma deals_run (deck : Deck.t) (xs : list nat) (σ : world)
    (cs : list Card.t) :
  heap σ !! Deck.cards deck = Some cs →
  mapM (M:=M) (λ _ : nat, Deck.deal deck) xs σ =
    if decide (length xs ≤ length cs)
    then (Ok (take (length xs) cs),
          set_heap <[Deck.cards deck:=drop (length xs) cs]> σ)
    else (Raise IndexError, set_heap <[Deck.cards deck:=[]]> σ).
Proof.
  revert σ cs. induction xs as [|x xs IH]; intros σ cs H.
  { rewrite decide_True by (simpl; lia). simpl length.
    rewrite take_0, drop_0. by rewrite set_heap_insert_id. }
  rewrite mapM_cons_run. destruct cs as [|c cs].
  - rewrite (bind_Raise _ _ _ _ _ (deal_nil _ _ H)).
    rewrite decide_False by (simpl; lia). by rewrite set_heap_insert_id.
  - rewrite (bind_Ok _ _ _ _ _ (deal_cons _ _ _ _ H)).
    assert (heap (set_heap <[Deck.cards deck:=cs]> σ) !! Deck.cards deck
            = Some cs) as H' by apply lookup_insert_eq.
    rewrite bind_run, (IH _ _ H'). simpl length.
    destruct (decide (length xs ≤ length cs)).
    + rewrite decide_True by lia. by rewrite set_heap_set_heap.
    + rewrite decide_False by lia. by rewrite set_heap_set_heap.
Qed.

(** C5. On a deck that holds [c :: cs], [deal()] returns the front card [c]
    and leaves [cs], one card fewer; [n] deals in a row return the first [n]
    cards front to back and leave the rest; on an empty deck [deal()] raises
    [IndexError] (the EmptyResource error of the specification), returns
    nothing and changes nothing. *)
Theorem Deck_deal_spec (deck : Deck.t) (σ : world) (cs : list Card.t) :
  heap σ !! Deck.cards deck = Some cs →
  match cs with
  | c :: cs' =>
      Deck.deal deck σ = (Ok c, set_heap <[Deck.cards deck:=cs']> σ)
      ∧ length cs' + 1 = length cs
  | [] => Deck.deal deck σ = (Raise IndexError, σ)
  end
  ∧ ∀ n, n ≤ length cs →
      mapM (M:=M) (λ _ : nat, Deck.deal deck) (seq 0 n) σ =
        (Ok (take n cs), set_heap <[Deck.cards deck:=drop n cs]> σ).
Proof.
  intros H. split.
  - destruct cs as [|c cs'].
    + by apply deal_nil.
    + split; [by apply deal_cons|simpl; lia].
  - intros n Hn. rewrite (deals_run _ _ _ _ H), length_seq.
    by rewrite decide_True.
Qed.

Lemma Deck_deal_spec_witness :
  Deck.deal new_deck new_deck_world =
    (Ok (Card.mk "2" "♣"),
     set_heap <[Deck.cards new_deck:=drop 1 standard_deck]> new_deck_world).
Proof.
  apply (Deck_deal_spec new_deck new_deck_world standard_deck).
  vm_compute. reflexivity.
Defined.

(** ** Hands *)

Lemma Hand_init_run (deck : Deck.t) (σ : world) (cs : list Card.t) :
  heap σ !! Deck.cards deck = Some cs →
  Hand.__init__ deck σ =
    if decide (5 ≤ length cs)
    then
      let σ1 := set_heap <[Deck.cards deck:=drop 5 cs]> σ in
      (Ok (Hand.mk (fresh_loc (heap σ1))),
       set_heap <[fresh_loc (heap σ1):=take 5 cs]> σ1)
    else (Raise IndexError, set_heap <[Deck.cards deck:=[]]> σ).
Proof.
  intros H. unfold Hand.__init__.
  rewrite bind_run, (deals_run _ _ _ _ H). simpl length.
  by destruct (decide (5 ≤ length cs)).
Qed.

(** C4, as the code has it. [Hand(deck)] makes five calls of [deal()]. On
    a deck of at least 5 cards it returns a hand that holds, in a list of
    its own, the first five cards in order, and the deck keeps the rest. On
    a deck of fewer than 5 cards it raises [IndexError] after the cards
    that were there have been dealt: the deck is left empty. *)
Theorem Hand_init_spec (deck : Deck.t) (σ : world) (cs : list Card.t) :
  heap σ !! Deck.cards deck = Some cs →
  (5 ≤ length cs →
     ∃ hand σ',
       Hand.__init__ deck σ = (Ok hand, σ')
       ∧ heap σ !! Hand.cards hand = None
       ∧ heap σ' = <[Hand.cards hand:=take 5 cs]>
                     (<[Deck.cards deck:=drop 5 cs]> (heap σ))
       ∧ mapM (M:=M) (λ _ : nat, Deck.deal deck) (seq 0 5) σ =
           (Ok (take 5 cs), set_heap <[Deck.cards deck:=drop 5 cs]> σ)) ∧
  (length cs < 5 →
     ∃ σ',
       Hand.__init__ deck σ = (Raise IndexError, σ')
       ∧ heap σ' = <[Deck.cards deck:=[]]> (heap σ)).
Proof.
  intros H. rewrite (Hand_init_run _ _ _ H). split; intros Hlen.
  - rewrite decide_True by done. eexists _, _. split_and!; [done| |done|].
    + pose proof (fresh_loc_fresh
        (heap (set_heap <[Deck.cards deck:=drop 5 cs]> σ))) as Hf.
      simpl in *. apply lookup_insert_None in Hf. apply Hf.
    + rewrite (deals_run _ _ _ _ H). simpl length.
      by rewrite decide_True by done.
  - rewrite decide_False by lia. by eexists.
Qed.

Lemma Hand_init_spec_witness :
  ∃ hand σ',
    Hand.__init__ new_deck new_deck_world = (Ok hand, σ')
    ∧ heap σ' = <[Hand.cards hand:=take 5 standard_deck]>
                  (<[Deck.cards new_deck:=drop 5 standard_deck]>
                     (heap new_deck_world)).
Proof.
  assert (heap new_deck_world !! Deck.cards new_deck = Some standard_deck)
    as H by (vm_compute; reflexivity).
  destruct (proj1 (Hand_init_spec new_deck new_deck_world standard_deck H))
    as (hand & σ' & Hrun & _ & Hheap & _); [vm_compute; lia|].
  by exists hand, σ'.
Defined.

(** The claim C4 as stated fails: a failed [Hand(deck)] is not atomic.
    After [deck = Deck()] and ten hands the deck holds two cards; the
    eleventh [Hand(deck)] raises and the two cards are gone. *)
Lemma Hand_init_not_atomic :
  (deck_after_hands 10 empty_world).1 = Ok new_deck
  ∧ heap short_deck_world !! Deck.cards new_deck
    = Some [Card.mk "K" "♠"; Card.mk "A" "♠"]
  ∧ (Hand.__init__ new_deck short_deck_world).1 = Raise IndexError
  ∧ heap (Hand.__init__ new_deck short_deck_world).2 !! Deck.cards new_deck
    = Some []
  ∧ ¬ (∀ (deck : Deck.t) (σ σ' : world) (e : exn),
         Hand.__init__ deck σ = (Raise e, σ') → heap σ' = heap σ).
Proof.
  split_and!; [vm_compute; reflexivity..|].
  intros Hatomic.
  assert (heap (Hand.__init__ new_deck short_deck_world).2
          = heap short_deck_world) as Heq.
  { apply (Hatomic new_deck short_deck_world _ IndexError).
    by destruct (Hand.__init__ new_deck short_deck_world) as [r σ'] eqn:E;
      vm_compute in E; injection E as <- <-. }
  apply (f_equal (λ h, h !! 2%positive)) in Heq. by vm_compute in Heq.
Qed.

(** ** A new deck and its shuffle *)

Lemma standard_deck_valid (c : Card.t) : c ∈ standard_deck ↔ valid c.
Proof.
  unfold standard_deck, valid. rewrite list_elem_of_bind. split.
  - intros (s & (r & ->%list_elem_of_singleton & Hr)%list_elem_of_bind & Hs).
    done.
  - intros [Hr Hs]. exists (Card.suit c). split; [|done].
    apply list_elem_of_bind. exists (Card.rank c). split; [|done].
    destruct c. apply list_elem_of_singleton. done.
Qed.

Lemma standard_deck_NoDup : NoDup standard_deck.
Proof. by_compute. Qed.

Lemma Deck_init_run (σ : world) :
  Deck.__init__ σ =
    (Ok (Deck.mk (fresh_loc (heap σ))),
     set_heap <[fresh_loc (heap σ):=standard_deck]> σ).
Proof. done. Qed.

Lemma swap_Permutation (x : list Card.t) (i j : nat) : swap x i j ≡ₚ x.
Proof.
  unfold swap. destruct (x !! j) as [xj|] eqn:Hj; [|done].
  destruct (x !! i) as [xi|] eqn:Hi; [|done].
  by apply Permutation_insert_swap.
Qed.

Lemma shuffle_list_Permutation (g : N → nat) (n : N) (i : nat)
    (x : list Card.t) :
  shuffle_list g n i x ≡ₚ x.
Proof.
  revert n x. induction i as [|i IH]; intros n x; [done|].
  cbn [shuffle_list]. by rewrite IH, swap_Permutation.
Qed.

(** The draws matter only as far as the shuffle consumes them. *)
Lemma shuffle_list_ext (g g' : N → nat) (n n' : N) (i : nat)
    (x : list Card.t) :
  (∀ j, j < i → g (n + N.of_nat j)%N = g' (n' + N.of_nat j)%N) →
  shuffle_list g n i x = shuffle_list g' n' i x.
Proof.
  revert n n' x. induction i as [|i IH]; intros n n' x Hg; [done|].
  cbn [shuffle_list].
  assert (g n = g' n') as ->.
  { specialize (Hg 0 ltac:(lia)). by rewrite !N.add_0_r in Hg. }
  apply IH. intros j Hj. specialize (Hg (S j) ltac:(lia)).
  by replace (N.succ n + N.of_nat j)%N with (n + N.of_nat (S j))%N by lia;
    replace (N.succ n' + N.of_nat j)%N with (n' + N.of_nat (S j))%N by lia.
Qed.

Lemma shuffle_from_run (l : loc) (i : nat) (σ : world) (x : list Card.t) :
  heap σ !! l = Some x →
  shuffle_from l i σ =
    (Ok (), {| heap := <[l:=shuffle_list (random σ) (drawn σ) i x]> (heap σ);
               random := random σ;
               drawn := drawn σ + N.of_nat i |}).
Proof.
  revert σ x. induction i as [|i IH]; intros σ x H.
  { destruct σ as [h g n]. simpl in *.
    unfold mret, M_ret. by rewrite insert_id, N.add_0_r. }
  cbn [shuffle_from shuffle_list]. rewrite bind_run. unfold randbelow at 1.
  set (j := random σ (drawn σ) `mod` (S i + 1)).
  set (σ1 := {| heap := heap σ; random := random σ;
                drawn := N.succ (drawn σ) |}).
  rewrite (bind_Ok _ _ _ _ _ (load_run l σ1 x H)).
  rewrite bind_run. unfold store at 1.
  rewrite (IH (set_heap <[l:=swap x (S i) j]> σ1) (swap x (S i) j))
    by apply lookup_insert_eq.
  simpl. rewrite insert_insert_eq. do 2 f_equal. lia.
Qed.

Lemma Deck_shuffle_run (deck : Deck.t) (σ : world) (cs : list Card.t) :
  heap σ !! Deck.cards deck = Some cs →
  Deck.shuffle deck σ =
    (Ok (), {| heap := <[Deck.cards deck:=
                           shuffle_list (random σ) (drawn σ)
                             (length cs - 1) cs]> (heap σ);
               random := random σ;
               drawn := drawn σ + N.of_nat (length cs - 1) |}).
Proof.
  unfold Deck.cards. intros H. unfold Deck.shuffle, random_shuffle.
  rewrite (bind_Ok _ _ _ _ _ (load_run _ _ _ H)).
  apply (shuffle_from_run _ _ _ _ H).
Qed.

(** C6. [Deck()] succeeds and gives the deck a list of its own with the
    standard deck: 52 cards, no card twice, every rank of [RANKS] with every
    suit of [SUITS]. [shuffle()] on a deck returns [None] and leaves in the
    deck's list a permutation of what it held: the same cards, each as many
    times, so for a new deck the same 52 cards. *)
Theorem Deck_init_shuffle_spec (σ : world) :
  (∃ deck σ1,
     Deck.__init__ σ = (Ok deck, σ1)
     ∧ heap σ !! Deck.cards deck = None
     ∧ heap σ1 = <[Deck.cards deck:=standard_deck]> (heap σ)
     ∧ ∃ cs σ2,
         Deck.shuffle deck σ1 = (Ok (), σ2)
         ∧ heap σ2 = <[Deck.cards deck:=cs]> (heap σ1)
         ∧ cs ≡ₚ standard_deck ∧ length cs = 52 ∧ NoDup cs
         ∧ ∀ c, c ∈ cs ↔ c ∈ standard_deck) ∧
  length standard_deck = 52 ∧ NoDup standard_deck ∧
  (∀ rank suit, rank ∈ Card.RANKS → suit ∈ Card.SUITS →
     Card.mk rank suit ∈ standard_deck) ∧
  (∀ (deck : Deck.t) (cs : list Card.t),
     heap σ !! Deck.cards deck = Some cs →
     ∃ cs' σ',
       Deck.shuffle deck σ = (Ok (), σ')
       ∧ heap σ' = <[Deck.cards deck:=cs']> (heap σ)
       ∧ cs' ≡ₚ cs ∧ length cs' = length cs ∧ ∀ c, c ∈ cs' ↔ c ∈ cs).
Proof.
  split_and!.
  - eexists _, _. rewrite Deck_init_run.
    split_and!; [reflexivity| |reflexivity|].
    { apply fresh_loc_fresh. }
    eexists _, _. rewrite (Deck_shuffle_run _ _ standard_deck)
      by apply lookup_insert_eq.
    pose proof shuffle_list_Permutation as Hp.
    split_and!; [reflexivity..|apply Hp| | |].
    + rewrite Hp. reflexivity.
    + rewrite Hp. apply standard_deck_NoDup.
    + intros c. by rewrite Hp.
  - reflexivity.
  - apply standard_deck_NoDup.
  - intros rank suit Hr Hs. by apply standard_deck_valid.
  - intros deck cs H. eexists _, _. rewrite (Deck_shuffle_run _ _ _ H).
    pose proof shuffle_list_Permutation as Hp.
    split_and!; [reflexivity..|apply Hp| |].
    + by rewrite Hp.
    + intros c. by rewrite Hp.
Qed.

Lemma Deck_init_shuffle_spec_witness :
  ∃ cs' σ',
    Deck.shuffle new_deck new_deck_world = (Ok (), σ')
    ∧ heap σ' = <[Deck.cards new_deck:=cs']> (heap new_deck_world)
    ∧ cs' ≡ₚ standard_deck.
Proof.
  destruct (proj2 (proj2 (proj2 (proj2
              (Deck_init_shuffle_spec new_deck_world))))
              new_deck standard_deck)
    as (cs' & σ' & Hrun & Hheap & Hp & _); [vm_compute; reflexivity|].
  exists cs', σ'. split_and!; assumption.
Defined.

(** ** num_matches *)

Section num_matches.

Context (self : Hand.t) (σ : world) (cs : list Card.t).
Hypothesis Hcards : heap σ !! Hand.cards self = Some cs.

(** Positions [i] and [j] are distinct and hold cards of one rank. *)
Let matching (p : nat * nat) : Prop :=
  p.1 ≠ p.2 ∧ Card.rank <$> cs !! p.1 = Card.rank <$> cs !! p.2.

Let inner (i : nat) : nat → nat → M nat := λ matches j,
  if bool_decide (i ≠ j) then
    ci ← getitem (Hand.cards self) i;
    cj ← getitem (Hand.cards self) j;
    if bool_decide (Card.rank ci = Card.rank cj)
    then mret (matches + 1) else mret matches
  else mret matches.

Lemma inner_run (i j matches : nat) :
  i < length cs → j < length cs →
  inner i matches j σ =
    (Ok (matches + length (filter (λ j, matching (i, j)) [j])), σ).
Proof.
  intros [ci Hi]%lookup_lt_is_Some_2 [cj Hj]%lookup_lt_is_Some_2.
  unfold inner. rewrite filter_cons, filter_nil. unfold matching. simpl.
  rewrite Hi, Hj. simpl. case_bool_decide as Hij.
  - rewrite bind_run, (getitem_run _ _ _ _ Hcards), Hi.
    rewrite bind_run, (getitem_run _ _ _ _ Hcards), Hj.
    case_bool_decide as Hr.
    + rewrite decide_True by (by rewrite Hr). by simpl.
    + rewrite decide_False by (intros [_ [=]]; done).
      simpl. by rewrite Nat.add_0_r.
  - rewrite decide_False by (intros [? _]; done).
    simpl. by rewrite Nat.add_0_r.
Qed.

Lemma inner_loop_run (i : nat) (js : list nat) (matches : nat) :
  i < length cs → Forall (λ j, j < length cs) js →
  foldlM (M:=M) (inner i) matches js σ =
    (Ok (matches + length (filter (λ j, matching (i, j)) js)), σ).
Proof.
  intros Hi Hjs. revert matches.
  induction Hjs as [|j js Hj Hjs IH]; intros matches.
  { simpl. unfold mret, M_ret. by rewrite Nat.add_0_r. }
  cbn [foldlM]. rewrite (bind_Ok _ _ _ _ _ (inner_run i j matches Hi Hj)).
  rewrite IH. change (j :: js) with ([j] ++ js).
  rewrite (filter_app _ [j] js), length_app. by rewrite Nat.add_assoc.
Qed.

Lemma filter_pairs_length (i : nat) (js : list nat) :
  length (filter matching (j ← js; [(i, j)])) =
  length (filter (λ j, matching (i, j)) js).
Proof.
  induction js as [|j js IH]; [done|].
  change (j :: js) with ([j] ++ js) at 2. rewrite filter_app, length_app.
  rewrite <-IH. cbn [mbind list_bind]. rewrite filter_app, length_app.
  f_equal. simpl. rewrite !filter_cons, !filter_nil.
  destruct (decide (matching (i, j))); done.
Qed.

Lemma outer_loop_run (ixs js : list nat) (matches : nat) :
  Forall (λ i, i < length cs) ixs → Forall (λ j, j < length cs) js →
  foldlM (M:=M) (λ matches i, foldlM (inner i) matches js) matches ixs σ =
    (Ok (matches + length (filter matching
                             (i ← ixs; j ← js; [(i, j)]))), σ).
Proof.
  intros Hixs Hjs. revert matches.
  induction Hixs as [|i ixs Hi Hixs IH]; intros matches.
  { simpl. unfold mret, M_ret. by rewrite Nat.add_0_r. }
  cbn [foldlM]. rewrite (bind_Ok _ _ _ _ _ (inner_loop_run i js matches Hi Hjs)).
  rewrite IH. cbn [mbind list_bind]. rewrite filter_app, length_app.
  fold (mbind (M:=list) (λ j, [(i, j)]) js).
  by rewrite filter_pairs_length, Nat.add_assoc.
Qed.

(** [num_matches] returns the number of ordered pairs of distinct
    positions with cards of one rank, and reads the store only. *)
Lemma num_matches_run :
  length cs = 5 →
  Hand.num_matches self σ = (Ok (ordered_rank_pairs cs), σ).
Proof.
  intros Hlen. unfold Hand.num_matches, ordered_rank_pairs, ordered_pairs.
  rewrite length_fmap, Hlen.
  assert (Forall (λ i, i < length cs) (seq 0 5)) as Hseq.
  { rewrite Hlen. apply Forall_seq. lia. }
  rewrite (list_filter_iff _ matching).
  - apply (outer_loop_run (seq 0 5) (seq 0 5) 0 Hseq Hseq).
  - intros [i j]. unfold matching. by rewrite !list_lookup_fmap.
Qed.

End num_matches.

(** ** The categories of a hand

    [ordered_pairs] and [profile] only compare elements, so they do not
    change when the elements are renamed one to one; renaming each element
    to the position of its first occurrence leaves finitely many lists of
    five to check. *)

Section renaming.

Context {A B : Type} `{EqDecision A, EqDecision B} (f : A → B).

Lemma multiplicity_fmap (r : A) (l : list A) :
  (∀ x, x ∈ l → f x = f r → x = r) →
  multiplicity (f r) (f <$> l) = multiplicity r l.
Proof.
  unfold multiplicity. induction l as [|x l IH]; intros Hinj; [done|].
  rewrite fmap_cons, !filter_cons.
  assert (f x = f r ↔ x = r) as Hx.
  { split; [apply Hinj; left|by intros ->]. }
  rewrite (decide_ext _ _ _ _ Hx).
  destruct (decide (x = r)); simpl; rewrite IH; try done;
    intros y Hy; apply Hinj; by right.
Qed.

Lemma filter_ne_fmap (r : A) (l : list A) :
  (∀ x, x ∈ l → f x = f r → x = r) →
  filter (λ y, y ≠ f r) (f <$> l) = f <$> filter (λ x, x ≠ r) l.
Proof.
  induction l as [|x l IH]; intros Hinj; [done|].
  rewrite fmap_cons, !filter_cons.
  assert (f x ≠ f r ↔ x ≠ r) as Hx.
  { split; [by intros ? ->|]. intros Hne Hf. apply Hne, Hinj; [left|done]. }
  rewrite (decide_ext _ _ _ _ Hx).
  destruct (decide (x ≠ r)); simpl; rewrite IH; try done;
    intros y Hy; apply Hinj; by right.
Qed.

Lemma distinct_elem_of (l : list A) (x : A) : x ∈ distinct l → x ∈ l.
Proof.
  induction l as [|y l IH]; [done|]. simpl.
  intros [->|[_ Hx]%list_elem_of_filter]%elem_of_cons; [left|right; auto].
Qed.

Lemma distinct_fmap (l : list A) :
  (∀ x y, x ∈ l → y ∈ l → f x = f y → x = y) →
  distinct (f <$> l) = f <$> distinct l.
Proof.
  induction l as [|r l IH]; intros Hinj; [done|].
  rewrite fmap_cons. cbn [distinct].
  rewrite IH by (intros x y Hx Hy; apply Hinj; by right).
  rewrite filter_ne_fmap; [done|].
  intros x Hx%distinct_elem_of. apply Hinj; [by right|left].
Qed.

Lemma ordered_pairs_fmap (l : list A) :
  (∀ x y, x ∈ l → y ∈ l → f x = f y → x = y) →
  ordered_pairs (f <$> l) = ordered_pairs l.
Proof.
  intros Hinj. unfold ordered_pairs. rewrite length_fmap. f_equal.
  apply list_filter_iff. intros [i j]. simpl. rewrite !list_lookup_fmap.
  split; intros [Hij Heq]; (split; [done|]).
  - destruct (l !! i) as [x|] eqn:Hi, (l !! j) as [y|] eqn:Hj;
      simplify_eq/=; [|done]. f_equal.
    apply Hinj; [by eapply list_elem_of_lookup_2..|done].
  - by rewrite Heq.
Qed.

Lemma profile_fmap (l : list A) :
  (∀ x y, x ∈ l → y ∈ l → f x = f y → x = y) →
  profile (f <$> l) = profile l.
Proof.
  intros Hinj. unfold profile. do 2 f_equal.
  rewrite distinct_fmap, <-list_fmap_compose by done.
  apply list_fmap_ext. intros i x Hx%list_elem_of_lookup_2%distinct_elem_of.
  simpl. apply multiplicity_fmap. intros y Hy. by apply Hinj.
Qed.

End renaming.

Section pattern.

Context {A : Type} `{EqDecision A}.

Lemma first_index_lookup (l : list A) (x : A) :
  x ∈ l → l !! first_index l x = Some x.
Proof.
  induction l as [|y l IH]; [by intros ?%elem_of_nil|].
  intros Hx. simpl. destruct (decide (y = x)) as [->|Hne]; [done|].
  apply elem_of_cons in Hx as [->|Hx]; [done|]. by apply IH.
Qed.

Lemma first_index_inj (l : list A) (x y : A) :
  x ∈ l → y ∈ l → first_index l x = first_index l y → x = y.
Proof.
  intros Hx%first_index_lookup Hy%first_index_lookup Heq.
  rewrite Heq in Hx. congruence.
Qed.

Lemma pattern_elem_of_patterns5 (rs : list A) :
  length rs = 5 → pattern rs ∈ patterns5.
Proof.
  intros Hlen.
  assert (Forall (λ n, n < 5) (pattern rs)) as Hlt.
  { unfold pattern. rewrite Forall_fmap. apply Forall_forall. intros x Hx.
    simpl. rewrite <-Hlen. eapply lookup_lt_Some. by apply first_index_lookup. }
  assert (length (pattern rs) = 5) as Hlen'
    by (unfold pattern; by rewrite length_fmap).
  destruct (pattern rs) as [|a [|b [|c [|d [|e [|??]]]]]]; simplify_eq/=.
  repeat (apply Forall_cons in Hlt as [? Hlt]).
  unfold patterns5.
  apply list_elem_of_bind; exists a; split; [|apply elem_of_seq; lia].
  apply list_elem_of_bind; exists b; split; [|apply elem_of_seq; lia].
  apply list_elem_of_bind; exists c; split; [|apply elem_of_seq; lia].
  apply list_elem_of_bind; exists d; split; [|apply elem_of_seq; lia].
  apply list_elem_of_bind; exists e; split; [|apply elem_of_seq; lia].
  apply list_elem_of_singleton. reflexivity.
Qed.

Lemma patterns5_check : Forall (λ ns, category_check ns = true) patterns5.
Proof. by_compute. Qed.

(** Among five elements, either all are equal or the list falls in one of
    the six categories. *)
Lemma five_category (rs : list A) :
  length rs = 5 →
  (∀ x y, x ∈ rs → y ∈ rs → x = y)
  ∨ ∃ k, ordered_pairs rs = category_matches k
         ∧ profile rs = category_profile k.
Proof.
  intros Hlen.
  pose proof (pattern_elem_of_patterns5 rs Hlen) as Hin.
  pose proof (proj1 (Forall_forall _ _) patterns5_check _ Hin) as Hcheck.
  unfold category_check in Hcheck.
  apply orb_true_iff in Hcheck as [Hall|Hex].
  - left. apply bool_decide_eq_true in Hall. intros x y Hx Hy.
    apply (first_index_inj rs); [done..|].
    assert (∀ z, z ∈ rs → first_index rs z = hd 0 (pattern rs)) as Hz.
    { intros z Hz. apply (list_elem_of_fmap_2 (first_index rs)) in Hz.
      fold (pattern rs) in Hz. rewrite Hall in Hz.
      by apply elem_of_replicate in Hz as [-> _]. }
    by rewrite !Hz.
  - right. apply existsb_exists in Hex as (k & _ & Hk).
    apply andb_true_iff in Hk as [Hp%bool_decide_eq_true Hq%bool_decide_eq_true].
    exists k. unfold pattern in Hp, Hq.
    rewrite ordered_pairs_fmap in Hp by apply first_index_inj.
    by rewrite profile_fmap in Hq by apply first_index_inj.
Qed.

End pattern.

(** Five distinct cards of the standard deck are not all of one rank:
    there are four suits only. *)
Lemma not_five_of_a_kind (cs : list Card.t) :
  length cs = 5 → NoDup cs → Forall valid cs →
  ¬ (∀ x y, x ∈ Card.rank <$> cs → y ∈ Card.rank <$> cs → x = y).
Proof.
  intros Hlen Hnd Hvalid Hall.
  assert (NoDup (Card.suit <$> cs)) as Hsuits.
  { apply NoDup_fmap_2_strong; [|done]. intros [r1 s1] [r2 s2] H1 H2 Hs.
    simpl in Hs. subst. f_equal.
    apply (Hall r1 r2); by apply (list_elem_of_fmap_2 Card.rank) in H1, H2. }
  assert (Card.suit <$> cs ⊆+ Card.SUITS) as Hsub.
  { apply NoDup_submseteq; [done|].
    intros s (c & -> & Hc)%list_elem_of_fmap.
    by apply (proj1 (Forall_forall _ _) Hvalid). }
  apply submseteq_length in Hsub. rewrite length_fmap, Hlen in Hsub.
  simpl in Hsub. lia.
Qed.

Lemma hand_category (cs : list Card.t) :
  length cs = 5 → NoDup cs → Forall valid cs →
  ∃ k, ordered_rank_pairs cs = category_matches k
       ∧ rank_profile cs = category_profile k.
Proof.
  intros Hlen Hnd Hvalid.
  destruct (five_category (Card.rank <$> cs)) as [Hall|Hk].
  - by rewrite length_fmap.
  - by destruct (not_five_of_a_kind cs).
  - done.
Qed.

(** A hand dealt from a deck that holds distinct cards of the standard deck
    (a new deck, shuffled or not, or what is left of one after some deals)
    holds five distinct cards of the standard deck. *)
Lemma dealt_hand (deck : Deck.t) (hand : Hand.t) (σ σ' : world)
    (ds : list Card.t) :
  heap σ !! Deck.cards deck = Some ds → NoDup ds → ds ⊆ standard_deck →
  Hand.__init__ deck σ = (Ok hand, σ') →
  heap σ' !! Hand.cards hand = Some (take 5 ds)
  ∧ length (take 5 ds) = 5 ∧ NoDup (take 5 ds) ∧ take 5 ds ⊆ standard_deck.
Proof.
  intros Hdeck Hnd Hsub. rewrite (Hand_init_run _ _ _ Hdeck).
  destruct (decide (5 ≤ length ds)) as [Hlen|]; [|done].
  cbv zeta. intros [= <- <-]. split_and!.
  - apply lookup_insert_eq.
  - rewrite length_take. lia.
  - rewrite <-(take_drop 5 ds) in Hnd. by apply NoDup_app in Hnd as [? _].
  - intros c Hc. by apply Hsub, (subseteq_take 5).
Qed.

(** C1. A hand of five distinct cards of the standard deck falls in one of
    the six categories, from no pair to quads, by the number of cards it
    holds of each rank; [num_matches] returns the number of ordered pairs of
    distinct positions with cards of one rank, which is 0, 2, 4, 6, 8 or 12
    according to the category, and leaves the store alone. *)
Theorem num_matches_spec (self : Hand.t) (σ : world) (cs : list Card.t) :
  heap σ !! Hand.cards self = Some cs →
  length cs = 5 → NoDup cs → cs ⊆ standard_deck →
  Hand.num_matches self σ = (Ok (ordered_rank_pairs cs), σ) ∧
  ordered_rank_pairs cs ∈ [0; 2; 4; 6; 8; 12] ∧
  ∃ k, ordered_rank_pairs cs = category_matches k
       ∧ rank_profile cs = category_profile k.
Proof.
  intros Hcards Hlen Hnd Hsub.
  assert (Forall valid cs) as Hvalid.
  { apply Forall_forall. intros c Hc. by apply standard_deck_valid, Hsub. }
  destruct (hand_category cs Hlen Hnd Hvalid) as (k & Hk & Hp).
  split_and!.
  - by apply num_matches_run.
  - rewrite Hk. destruct k; by_compute.
  - by exists k.
Qed.

Lemma num_matches_spec_witness :
  Hand.num_matches first_hand first_hand_world = (Ok 0, first_hand_world).
Proof.
  apply (num_matches_spec first_hand first_hand_world
           (take 5 standard_deck)).
  - vm_compute. reflexivity.
  - reflexivity.
  - by_compute.
  - by_compute.
Defined.

(** ** Reading the store *)

Lemma read_only_ret {A : Type} (a : A) : read_only (mret a).
Proof. done. Qed.

Lemma read_only_lift {A : Type} (r : result A) : read_only (lift r).
Proof. done. Qed.

Lemma read_only_load (l : loc) : read_only (load l).
Proof. intros σ. unfold load. by destruct (heap σ !! l). Qed.

Lemma read_only_bind {A B : Type} (m : M A) (f : A → M B) :
  read_only m → (∀ a, read_only (f a)) → read_only (m ≫= f).
Proof.
  intros Hm Hf σ. rewrite bind_run. specialize (Hm σ).
  destruct (m σ) as [[a|e] σ']; simpl in Hm; subst; [apply Hf|done].
Qed.

Lemma read_only_getitem (l : loc) (i : nat) : read_only (getitem l i).
Proof.
  apply read_only_bind; [apply read_only_load|].
  intros cs. destruct (cs !! i); [apply read_only_ret|apply read_only_lift].
Qed.

Lemma read_only_foldlM {A B : Type} (f : B → A → M B) (b : B) (l : list A) :
  (∀ b a, read_only (f b a)) → read_only (foldlM f b l).
Proof.
  intros Hf. revert b. induction l as [|a l IH]; intros b.
  - apply read_only_ret.
  - apply read_only_bind; [apply Hf|apply IH].
Qed.

Lemma read_only_num_matches (self : Hand.t) :
  read_only (Hand.num_matches self).
Proof.
  apply read_only_foldlM. intros matches i.
  apply read_only_foldlM. intros matches' j.
  case_bool_decide; [|apply read_only_ret].
  apply read_only_bind; [apply read_only_getitem|intros ci].
  apply read_only_bind; [apply read_only_getitem|intros cj].
  case_bool_decide; apply read_only_ret.
Qed.

Lemma bind_read_only {A B : Type} (m : M A) (f : A → M B) (σ : world) :
  (∀ a, read_only (f a)) → ((m ≫= f) σ).2 = (m σ).2.
Proof.
  intros Hf. rewrite bind_run.
  destruct (m σ) as [[a|e] σ']; [apply Hf|done].
Qed.

(** ** sorted *)

Lemma insert_run (x : Card.t) (l : list Card.t) :
  valid x → Forall valid l → StronglySorted rank_le l →
  ∃ l', insert x l = Ok l' ∧ l' ≡ₚ x :: l ∧ StronglySorted rank_le l'.
Proof.
  intros Hx Hl Hs. induction l as [|y l IH].
  { exists [x]. split_and!; [done..|]. by repeat constructor. }
  apply Forall_cons in Hl as [Hy Hl].
  apply StronglySorted_inv in Hs as [Hs Hyl].
  cbn [insert]. rewrite lt_rank_index by (apply Hx || apply Hy).
  cbn [mbind result_bind]. case_bool_decide as Hlt.
  - exists (x :: y :: l). split_and!; [done..|].
    constructor; [by constructor|]. constructor; [unfold rank_le; lia|].
    eapply Forall_impl; [exact Hyl|]. unfold rank_le. intros; lia.
  - destruct (IH Hl Hs) as (l' & -> & Hp & Hs'). exists (y :: l').
    split_and!; [done| |].
    + by rewrite Hp, Permutation_swap.
    + constructor; [done|]. rewrite Hp. constructor; [|done].
      unfold rank_le. lia.
Qed.

Lemma sort_cards_run (cs : list Card.t) :
  Forall valid cs →
  ∃ r, sort_cards cs = Ok r ∧ r ≡ₚ cs ∧ StronglySorted rank_le r.
Proof.
  unfold sort_cards.
  cut (∀ acc, Forall valid acc → StronglySorted rank_le acc →
              Forall valid cs →
              ∃ r, foldlM (λ acc x, insert x acc) acc cs = Ok r
                   ∧ r ≡ₚ cs ++ acc ∧ StronglySorted rank_le r).
  { intros Hcut Hcs. destruct (Hcut [] ltac:(done) ltac:(constructor) Hcs)
      as (r & Hr & Hp & Hs). exists r. by rewrite app_nil_r in Hp. }
  induction cs as [|x cs IH]; intros acc Hacc Hs Hcs.
  { exists acc. by split_and!. }
  apply Forall_cons in Hcs as [Hx Hcs].
  destruct (insert_run x acc Hx Hacc Hs) as (acc' & Hins & Hp & Hs').
  cbn [foldlM]. rewrite Hins. cbn [mbind result_bind].
  destruct (IH acc') as (r & Hr & Hpr & Hsr); [|done..|].
  { rewrite Hp. by constructor. }
  exists r. split_and!; [done| |done].
  rewrite Hpr, Hp. symmetry. apply Permutation_middle.
Qed.

Lemma highest_Permutation (cs cs' : list Card.t) :
  cs ≡ₚ cs' → highest cs = highest cs'.
Proof.
  unfold highest. induction 1; rewrite ?fmap_cons; cbn [foldr]; lia.
Qed.

Lemma lowest_Permutation (cs cs' : list Card.t) :
  cs ≡ₚ cs' → lowest cs = lowest cs'.
Proof.
  unfold lowest. induction 1; rewrite ?fmap_cons; cbn [foldr]; lia.
Qed.

Lemma sorted_ends (a b c d e : Card.t) :
  valid a → StronglySorted rank_le [a; b; c; d; e] →
  lowest [a; b; c; d; e] = rank_index a
  ∧ highest [a; b; c; d; e] = rank_index e
  ∧ rank_index a ≤ rank_index e.
Proof.
  intros [Ha%rank_index_lt _] Hs.
  repeat match goal with
         | H : StronglySorted _ (_ :: _) |- _ =>
             apply StronglySorted_inv in H as [H ?]
         | H : Forall _ (_ :: _) |- _ => apply Forall_cons in H as [? H]
         end.
  unfold lowest, highest, rank_le in *.
  rewrite !fmap_cons. cbn [foldr fmap list_fmap length Card.RANKS]. lia.
Qed.

(** [sorted] leaves the sorted elements in a new list and touches no
    other. *)
Lemma sorted_run (l : loc) (σ : world) (cs r : list Card.t) :
  heap σ !! l = Some cs → sort_cards cs = Ok r →
  sorted l σ =
    (Ok (fresh_loc (heap σ)), set_heap <[fresh_loc (heap σ):=r]> σ).
Proof.
  intros H Hr. unfold sorted.
  rewrite (bind_Ok _ _ _ _ _ (load_run _ _ _ H)).
  rewrite bind_run. unfold alloc at 1. cbv zeta.
  set (l' := fresh_loc (heap σ)).
  assert (heap (set_heap <[l':=cs]> σ) !! l' = Some cs) as H'
    by apply lookup_insert_eq.
  rewrite bind_run. unfold list_sort at 1.
  rewrite (bind_Ok _ _ _ _ _ (load_run _ _ _ H')).
  rewrite bind_run. unfold lift at 1. rewrite Hr.
  unfold store. by rewrite set_heap_set_heap.
Qed.

Lemma is_straight_run (self : Hand.t) (σ : world) (cs : list Card.t) :
  heap σ !! Hand.cards self = Some cs → length cs = 5 → Forall valid cs →
  ∃ r, sort_cards cs = Ok r ∧ r ≡ₚ cs ∧ StronglySorted rank_le r
       ∧ lowest cs ≤ highest cs
       ∧ Hand.is_straight self σ =
           (Ok (bool_decide (ordered_rank_pairs cs = 0)
                && bool_decide (highest cs - lowest cs = 4)),
            set_heap <[fresh_loc (heap σ):=r]> σ).
Proof.
  intros H Hlen Hvalid.
  destruct (sort_cards_run cs Hvalid) as (r & Hr & Hp & Hs).
  exists r. split_and!; [done..| |].
  all: assert (length r = 5) as Hlen' by (by rewrite Hp).
  all: assert (Forall valid r) as Hvalid' by (by rewrite Hp).
  all: destruct r as [|a [|b [|c [|d [|e [|??]]]]]]; simplify_eq/=.
  all: assert (valid a ∧ valid e) as [Ha He].
  1, 3: by repeat (apply Forall_cons in Hvalid' as [? Hvalid']).
  all: destruct (sorted_ends a b c d e Ha Hs) as (Hlo & Hhi & Hle).
  all: rewrite <-(lowest_Permutation _ _ Hp), <-(highest_Permutation _ _ Hp).
  { lia. }
  unfold Hand.is_straight.
  rewrite (bind_Ok _ _ _ _ _ (sorted_run _ _ _ _ H Hr)).
  set (l' := fresh_loc (heap σ)). set (σ' := set_heap _ σ).
  assert (heap σ' !! l' = Some [a; b; c; d; e]) as H'
    by apply lookup_insert_eq.
  assert (heap σ' !! Hand.cards self = Some cs) as Hself.
  { unfold σ'. simpl. rewrite lookup_insert_ne; [done|].
    intros Heq. pose proof (fresh_loc_fresh (heap σ)) as Hf.
    fold l' in Hf. rewrite Heq in Hf. congruence. }
  rewrite bind_run, (getitem_run _ _ _ _ H'). cbn [lookup list_lookup].
  rewrite bind_run. unfold lift at 1.
  rewrite (proj1 (index_rank_index e (proj1 He))).
  rewrite bind_run, (getitem_run _ _ _ _ H'). cbn [lookup list_lookup].
  rewrite bind_run. unfold lift at 1.
  rewrite (proj1 (index_rank_index a (proj1 Ha))).
  rewrite bind_run, (num_matches_run _ _ _ Hself Hlen).
  unfold mret, M_ret. do 3 f_equal. apply bool_decide_ext. lia.
Qed.

(** C2. On a hand of five cards [is_straight] returns, and it returns
    true exactly when [num_matches] is 0 and the rank index of the highest
    card exceeds that of the lowest by 4. A hand whose ranks are A, 2, 3, 4,
    5, in any order, is not a straight: the ace has the highest index. *)
Theorem is_straight_spec (self : Hand.t) (σ : world) (cs : list Card.t) :
  heap σ !! Hand.cards self = Some cs → length cs = 5 → Forall valid cs →
  ∃ b σ',
    Hand.is_straight self σ = (Ok b, σ')
    ∧ lowest cs ≤ highest cs
    ∧ (b = true ↔ Hand.num_matches self σ = (Ok 0, σ)
                  ∧ highest cs - lowest cs = 4)
    ∧ (Card.rank <$> cs ≡ₚ ["A"; "2"; "3"; "4"; "5"] → b = false).
Proof.
  intros H Hlen Hvalid.
  destruct (is_straight_run self σ cs H Hlen Hvalid)
    as (r & _ & _ & _ & Hle & Hrun).
  eexists _, _. split_and!; [exact Hrun|done| |].
  - rewrite (num_matches_run _ _ _ H Hlen), andb_true_iff.
    rewrite !bool_decide_eq_true. split; intros [Hn Hd]; split; congruence.
  - intros Hranks.
    assert (highest cs = 12 ∧ lowest cs = 0) as [Hhi Hlo].
    { destruct (Permutation_map_inv _ _ (Permutation_sym Hranks))
        as (cs' & Hcs' & Hp).
      rewrite (highest_Permutation _ _ Hp), (lowest_Permutation _ _ Hp).
      destruct cs' as [|[r0 ?] [|[r1 ?] [|[r2 ?] [|[r3 ?] [|[r4 ?] [|??]]]]]];
        simplify_eq/=. by vm_compute. }
    rewrite Hhi, Hlo. apply andb_false_iff. right.
    by apply bool_decide_eq_false.
Qed.

Lemma is_straight_spec_witness :
  ∃ σ', Hand.is_straight sample_hand (world_of ace_low) = (Ok false, σ').
Proof.
  destruct (is_straight_spec sample_hand (world_of ace_low) ace_low)
    as (b & σ' & Hrun & _ & _ & Hace);
    [vm_compute; reflexivity|reflexivity|by_compute|].
  rewrite (Hace ltac:(reflexivity)) in Hrun. by exists σ'.
Defined.

(** ** is_straight and the hand's list *)

Lemma sorted_state (l : loc) (σ : world) :
  (sorted l σ).2 = σ
  ∨ ∃ x, (sorted l σ).2 = set_heap <[fresh_loc (heap σ):=x]> σ.
Proof.
  unfold sorted. destruct (heap σ !! l) as [cs|] eqn:H.
  2: { left. rewrite bind_run. unfold load. by rewrite H. }
  right. rewrite (bind_Ok _ _ _ _ _ (load_run _ _ _ H)).
  rewrite bind_run. unfold alloc at 1. cbv zeta.
  set (l' := fresh_loc (heap σ)).
  assert (heap (set_heap <[l':=cs]> σ) !! l' = Some cs) as H'
    by apply lookup_insert_eq.
  rewrite bind_run. unfold list_sort at 1.
  rewrite (bind_Ok _ _ _ _ _ (load_run _ _ _ H')).
  rewrite bind_run. unfold lift at 1.
  destruct (sort_cards cs) as [r|e].
  - exists r. unfold store. by rewrite set_heap_set_heap.
  - by exists cs.
Qed.

Lemma is_straight_state (self : Hand.t) (σ : world) :
  (Hand.is_straight self σ).2 = (sorted (Hand.cards self) σ).2.
Proof.
  unfold Hand.is_straight. apply bind_read_only. intros sorted_cards.
  apply read_only_bind; [apply read_only_getitem|intros c4].
  apply read_only_bind; [apply read_only_lift|intros high].
  apply read_only_bind; [apply read_only_getitem|intros c0].
  apply read_only_bind; [apply read_only_lift|intros low].
  apply read_only_bind; [apply read_only_num_matches|intros n].
  apply read_only_ret.
Qed.

(** C9. Whatever the hand and whatever [is_straight] returns or raises,
    the hand's list is afterwards what it was, and so is every list that
    existed: the only write goes to the new list that [sorted] makes. On a
    hand of five cards that new list holds the cards of the hand sorted by
    rank. *)
Theorem is_straight_frame (self : Hand.t) (σ : world) :
  let σ' := (Hand.is_straight self σ).2 in
  heap σ' !! Hand.cards self = heap σ !! Hand.cards self ∧
  (∀ l, is_Some (heap σ !! l) → heap σ' !! l = heap σ !! l) ∧
  random σ' = random σ ∧ drawn σ' = drawn σ ∧
  (∀ cs, heap σ !! Hand.cards self = Some cs → length cs = 5 →
         Forall valid cs →
         ∃ l r, heap σ !! l = None ∧ heap σ' = <[l:=r]> (heap σ)
                ∧ r ≡ₚ cs ∧ StronglySorted rank_le r).
Proof.
  intros σ'.
  assert (∀ l, is_Some (heap σ !! l) → heap σ' !! l = heap σ !! l) as Hframe.
  { intros l [cs Hl]. unfold σ'. rewrite is_straight_state.
    destruct (sorted_state (Hand.cards self) σ) as [->|[x ->]]; [done|].
    simpl. apply lookup_insert_ne. intros Heq.
    pose proof (fresh_loc_fresh (heap σ)) as Hf. rewrite Heq in Hf.
    congruence. }
  split_and!.
  - destruct (heap σ !! Hand.cards self) as [cs|] eqn:Hself; [by rewrite Hframe|].
    unfold σ'. rewrite is_straight_state. unfold sorted.
    rewrite bind_run. unfold load at 1. by rewrite Hself.
  - done.
  - unfold σ'. rewrite is_straight_state.
    by destruct (sorted_state (Hand.cards self) σ) as [->|[x ->]].
  - unfold σ'. rewrite is_straight_state.
    by destruct (sorted_state (Hand.cards self) σ) as [->|[x ->]].
  - intros cs Hself Hlen Hvalid.
    destruct (is_straight_run self σ cs Hself Hlen Hvalid)
      as (r & _ & Hp & Hs & _ & Hrun).
    exists (fresh_loc (heap σ)), r. unfold σ'. rewrite Hrun.
    split_and!; [apply fresh_loc_fresh|done..].
Qed.

Lemma is_straight_frame_witness :
  heap (Hand.is_straight sample_hand (world_of ace_low)).2
    !! Hand.cards sample_hand = Some ace_low
  ∧ ∃ l r,
      heap (world_of ace_low) !! l = None
      ∧ heap (Hand.is_straight sample_hand (world_of ace_low)).2
        = <[l:=r]> (heap (world_of ace_low))
      ∧ r ≡ₚ ace_low ∧ StronglySorted rank_le r.
Proof.
  destruct (is_straight_frame sample_hand (world_of ace_low))
    as (Hself & _ & _ & _ & Hcopy).
  split.
  - rewrite Hself. vm_compute. reflexivity.
  - apply Hcopy; [vm_compute; reflexivity|reflexivity|by_compute].
Defined.

(** ** The classification predicates *)

Lemma predicate_run (self : Hand.t) (σ : world) (cs : list Card.t)
    (v : nat) :
  heap σ !! Hand.cards self = Some cs → length cs = 5 →
  (n ← Hand.num_matches self; mret (bool_decide (n = v))) σ =
    (Ok (bool_decide (ordered_rank_pairs cs = v)), σ).
Proof.
  intros H Hlen. by rewrite (bind_Ok _ _ _ _ _ (num_matches_run _ _ _ H Hlen)).
Qed.

(** C10. On a hand of five cards each of [is_pair], [is_2pair],
    [is_trips], [is_full_house] and [is_quads] returns whether
    [num_matches] is 2, 4, 6, 8 and 12, and at most one of the five
    returns true. *)
Theorem classification_exclusive (self : Hand.t) (σ : world)
    (cs : list Card.t) :
  heap σ !! Hand.cards self = Some cs → length cs = 5 →
  ∃ n pair two_pair trips full_house quads,
    Hand.num_matches self σ = (Ok n, σ)
    ∧ Hand.is_pair self σ = (Ok pair, σ) ∧ pair = bool_decide (n = 2)
    ∧ Hand.is_2pair self σ = (Ok two_pair, σ)
    ∧ two_pair = bool_decide (n = 4)
    ∧ Hand.is_trips self σ = (Ok trips, σ) ∧ trips = bool_decide (n = 6)
    ∧ Hand.is_full_house self σ = (Ok full_house, σ)
    ∧ full_house = bool_decide (n = 8)
    ∧ Hand.is_quads self σ = (Ok quads, σ) ∧ quads = bool_decide (n = 12)
    ∧ Nat.b2n pair + Nat.b2n two_pair + Nat.b2n trips
      + Nat.b2n full_house + Nat.b2n quads ≤ 1.
Proof.
  intros H Hlen. eexists (ordered_rank_pairs cs), _, _, _, _, _.
  split_and!; try reflexivity; try (by apply predicate_run).
  - by apply num_matches_run.
  - repeat case_bool_decide; simpl; lia.
Qed.

Lemma classification_exclusive_witness :
  Hand.is_pair sample_hand (world_of twos_and_threes)
    = (Ok false, world_of twos_and_threes)
  ∧ Hand.is_2pair sample_hand (world_of twos_and_threes)
    = (Ok false, world_of twos_and_threes)
  ∧ Hand.is_trips sample_hand (world_of twos_and_threes)
    = (Ok false, world_of twos_and_threes)
  ∧ Hand.is_full_house sample_hand (world_of twos_and_threes)
    = (Ok true, world_of twos_and_threes)
  ∧ Hand.is_quads sample_hand (world_of twos_and_threes)
    = (Ok false, world_of twos_and_threes).
Proof.
  destruct (classification_exclusive sample_hand (world_of twos_and_threes)
              twos_and_threes)
    as (n & b1 & b2 & b3 & b4 & b5 & Hn & H1 & -> & H2 & -> & H3 & ->
        & H4 & -> & H5 & -> & _);
    [vm_compute; reflexivity|reflexivity|].
  assert (n = 8) as ->.
  { rewrite (num_matches_run _ _ twos_and_threes) in Hn;
      [|vm_compute; reflexivity|reflexivity].
    vm_compute in Hn. congruence. }
  by split_and!.
Defined.

(** ** The sampling loops *)



(** A pass through the loop body up to the call of the predicate: the hand
    holds the first five cards of the shuffled standard deck, and the
    shuffle has consumed 51 draws. *)
Lemma trial_deal (pred : Hand.t → M bool) (matches trials : nat)
    (σ : world) :
  ∃ hand σ3,
    heap σ3 !! Hand.cards hand =
      Some (take 5 (shuffle_list (random σ) (drawn σ) 51 standard_deck))
    ∧ random σ3 = random σ ∧ drawn σ3 = (drawn σ + 51)%N
    ∧ trial pred matches trials σ =
        (b ← pred hand;
         if b : bool then mret (matches + 1, trials + 1)
         else mret (matches, trials + 1)) σ3.
Proof.
  unfold trial. rewrite bind_run, Deck_init_run.
  set (l1 := fresh_loc (heap σ)). set (σ1 := set_heap _ σ).
  rewrite bind_run, (Deck_shuffle_run (Deck.mk l1) σ1 standard_deck)
    by apply lookup_insert_eq.
  change (length standard_deck - 1) with 51.
  set (cs := shuffle_list (random σ1) (drawn σ1) 51 standard_deck).
  set (σ2 := {| heap := _; random := _; drawn := _ |}).
  assert (heap σ2 !! Deck.cards (Deck.mk l1) = Some cs) as Hdeck
    by apply lookup_insert_eq.
  assert (length cs = 52) as Hlen.
  { unfold cs. rewrite shuffle_list_Permutation. reflexivity. }
  rewrite bind_run, (Hand_init_run _ _ _ Hdeck).
  rewrite decide_True by lia. cbv zeta.
  set (σ3 := set_heap <[Deck.cards (Deck.mk l1):=drop 5 cs]> σ2).
  exists (Hand.mk (fresh_loc (heap σ3))),
    (set_heap <[fresh_loc (heap σ3):=take 5 cs]> σ3).
  split_and!; [apply lookup_insert_eq|reflexivity..].
Qed.


Lemma while_loop_exit (pred : Hand.t → M bool) (fuel matches trials : nat)
    (σ : world) :
  ¬ matches < 1000 →
  while_loop pred fuel matches trials σ = (Ok (Exited matches trials), σ).
Proof.
  intros Hge. destruct fuel; cbn [while_loop];
    by rewrite bool_decide_false by done.
Qed.

Lemma while_loop_step (pred : Hand.t → M bool) (fuel matches trials : nat) :
  matches < 1000 →
  while_loop pred (S fuel) matches trials =
    mt ← trial pred matches trials; while_loop pred fuel mt.1 mt.2.
Proof. intros Hlt. cbn [while_loop]. by rewrite bool_decide_true by done. Qed.




(** ** Loops that stop

    Whether a loop stops depends on the draws. When the generator repeats
    51 draws for which the hand dealt satisfies the predicate, every trial
    is a match and the loop stops after 1000 trials. *)

Section always_match.

Context (pred : Hand.t → M bool) (d : nat → nat).

Hypothesis Hmatch : ∀ hand σ,
  heap σ !! Hand.cards hand =
    Some (take 5 (shuffle_list (d ∘ N.to_nat) 0 51 standard_deck)) →
  ∃ σ', pred hand σ = (Ok true, σ')
        ∧ random σ' = random σ ∧ drawn σ' = drawn σ.

Lemma trial_match (matches trials : nat) (σ : world) :
  periodic_draws d σ →
  ∃ σ', trial pred matches trials σ = (Ok (matches + 1, trials + 1), σ')
        ∧ periodic_draws d σ'.
Proof.
  intros Hd.
  destruct (trial_deal pred matches trials σ)
    as (hand & σ3 & Hhand & Hrandom & Hdrawn & ->).
  rewrite (shuffle_list_ext _ (d ∘ N.to_nat) _ 0) in Hhand.
  2: { intros j Hj. specialize (Hd 0%N j Hj).
       rewrite N.mul_0_r, N.add_0_r in Hd. rewrite Hd. unfold compose.
       by rewrite N.add_0_l, Nat2N.id. }
  destruct (Hmatch hand σ3 Hhand) as (σ' & Hpred & Hrandom' & Hdrawn').
  exists σ'. rewrite bind_run, Hpred. split; [done|].
  intros n j Hj. rewrite Hrandom', Hdrawn', Hrandom, Hdrawn.
  rewrite <-(Hd (n + 1)%N j Hj). f_equal. lia.
Qed.

Lemma while_loop_match (fuel matches trials : nat) (σ : world) :
  periodic_draws d σ → matches ≤ 1000 → 1000 - matches ≤ fuel →
  ∃ σ', while_loop pred fuel matches trials σ =
          (Ok (Exited 1000 (trials + (1000 - matches))), σ').
Proof.
  revert matches trials σ.
  induction fuel as [|fuel IH]; intros matches trials σ Hd Hm Hfuel;
    destruct (decide (matches < 1000)) as [Hlt|Hge]; [lia| | |].
  1, 3: exists σ; rewrite while_loop_exit by done; do 3 f_equal; lia.
  destruct (trial_match matches trials σ Hd) as (σ1 & Htrial & Hd1).
  destruct (IH (matches + 1) (trials + 1) σ1 Hd1) as (σ' & Hrun); [lia..|].
  exists σ'. rewrite (while_loop_step _ _ _ _ Hlt), bind_run, Htrial.
  cbn [fst snd]. rewrite Hrun. do 3 f_equal. lia.
Qed.

Lemma simulation_match (fuel : nat) (σ : world) :
  periodic_draws d σ → 1000 ≤ fuel →
  ∃ σ', simulation pred fuel σ =
          (Ok (Some (1000, 1000, Qmake 100000 1000)), σ').
Proof.
  intros Hd Hfuel.
  destruct (while_loop_match fuel 0 0 σ Hd) as (σ' & Hrun); [lia..|].
  exists σ'. unfold simulation. rewrite bind_run, Hrun.
  change (0 + (1000 - 0)) with 1000. rewrite bind_run. unfold lift at 1.
  by replace (estimated_probability 1000 1000)
    with (Ok (Qmake 100000 1000)) by (vm_compute; reflexivity).
Qed.

End always_match.


(** The draws [full_house_period] put a full house in front at every
    shuffle: the full house loop stops after 1000 trials too. *)
Lemma full_house_simulation_stops (fuel : nat) (σ : world) :
  periodic_draws full_house_period σ → 1000 ≤ fuel →
  ∃ σ', full_house_simulation fuel σ =
          (Ok (Some (1000, 1000, Qmake 100000 1000)), σ').
Proof.
  apply simulation_match. intros hand σ0 Hhand. exists σ0.
  split; [|done]. unfold Hand.is_full_house.
  by rewrite (predicate_run _ _ _ _ Hhand) by reflexivity.
Qed.


Lemma full_house_world_periodic :
  periodic_draws full_house_period full_house_world.
Proof.
  intros n j Hj. simpl. unfold full_house_draws. f_equal.
  rewrite N.add_0_l, N.add_comm, N.mul_comm, N.Div0.mod_add.
  rewrite N.mod_small by lia. apply Nat2N.id.
Qed.


(** ** Sample hands *)

Example full_house_hand :
  (Hand.num_matches sample_hand (world_of twos_and_threes)).1 = Ok 8
  ∧ rank_profile twos_and_threes = category_profile FullHouse.
Proof. split; vm_compute; reflexivity. Qed.

Example quads_hand :
  let cs := [Card.mk "A" "♣"; Card.mk "A" "♦"; Card.mk "A" "♥";
             Card.mk "A" "♠"; Card.mk "K" "♣"] in
  (Hand.num_matches sample_hand (world_of cs)).1 = Ok 12
  ∧ (Hand.is_quads sample_hand (world_of cs)).1 = Ok true.
Proof. split; vm_compute; reflexivity. Qed.

Example straight_hand :
  (Hand.is_straight sample_hand (world_of (take 5 standard_deck))).1 = Ok true
  ∧ (Hand.is_straight sample_hand (world_of ace_low)).1 = Ok false.
Proof. split; vm_compute; reflexivity. Qed.

(** * Further properties *)

Lemma ordered_pairs_elem_of (n i j : nat) :
  (i, j) ∈ (i ← seq 0 n; j ← seq 0 n; [(i, j)]) ↔ i < n ∧ j < n.
Proof.
  rewrite list_elem_of_bind. split.
  - intros (i' & (j' & [= -> ->]%list_elem_of_singleton & Hj)%list_elem_of_bind
            & Hi).
    apply elem_of_seq in Hi, Hj. lia.
  - intros [Hi Hj]. exists i. split; [|apply elem_of_seq; lia].
    apply list_elem_of_bind. exists j. split; [|apply elem_of_seq; lia].
    by apply list_elem_of_singleton.
Qed.

Lemma ordered_pairs_0_NoDup {A : Type} `{EqDecision A} (rs : list A) :
  ordered_pairs rs = 0 ↔ NoDup rs.
Proof.
  unfold ordered_pairs. rewrite length_zero_iff_nil, NoDup_alt. split.
  - intros Hnil i j x Hi Hj. destruct (decide (i = j)) as [|Hne]; [done|].
    exfalso.
    eapply (filter_nil_not_elem_of _ _ (i, j) Hnil); [simpl; by rewrite Hi, Hj|].
    apply ordered_pairs_elem_of. split; by eapply lookup_lt_Some.
  - intros Hinj. apply elem_of_nil_inv. intros [i j] [[Hne Heq] Hin]%list_elem_of_filter.
    simpl in *. apply ordered_pairs_elem_of in Hin as [Hi Hj].
    apply lookup_lt_is_Some_2 in Hi as [x Hx]. apply Hne.
    apply (Hinj i j x); [done|]. by rewrite <-Heq.
Qed.

(** ** Printing a card *)

(** X11. The printed form identifies the card: two cards (with ranks of
    [RANKS], as every card has) with the same [str], or the same [repr],
    are the same card, rank and suit. No rank is the beginning of another,
    so the rank and the suit can be read back from the string. *)
Theorem Card_str_inj (a b : Card.t) :
  Card.rank a ∈ Card.RANKS → Card.rank b ∈ Card.RANKS →
  Card.__str__ a = Card.__str__ b ∨ Card.__repr__ a = Card.__repr__ b →
  a = b.
Proof.
  destruct a as [r s], b as [r' s'].
  unfold Card.__repr__, Card.__str__, Card.RANKS. simpl.
  intros Hr Hr' [Hstr|Hstr].
  all: repeat (apply elem_of_cons in Hr as [->|Hr]);
    [..|by apply elem_of_nil in Hr];
    repeat (apply elem_of_cons in Hr' as [->|Hr']);
    try (by apply elem_of_nil in Hr'); simpl in Hstr; by simplify_eq.
Qed.

Lemma Card_str_inj_witness :
  Card.__str__ (Card.mk "10" "♦") = "10♦"
  ∧ Card.mk "10" "♦" = Card.mk "10" "♦".
Proof.
  split; [reflexivity|].
  apply (Card_str_inj (Card.mk "10" "♦") (Card.mk "10" "♦"));
    [by_compute|by_compute|left; reflexivity].
Defined.

(** ** is_flush *)

Lemma is_flush_run (self : Hand.t) (σ : world) (c0 : Card.t)
    (cs : list Card.t) :
  heap σ !! Hand.cards self = Some (c0 :: cs) →
  Hand.is_flush self σ =
    (Ok (forallb (λ card, bool_decide (Card.suit card = Card.suit c0))
           (c0 :: cs)), σ).
Proof.
  intros H. unfold Hand.is_flush.
  rewrite bind_run, (getitem_run _ _ _ _ H). cbn [lookup list_lookup].
  cbv zeta. by rewrite (bind_Ok _ _ _ _ _ (load_run _ _ _ H)).
Qed.

(** X1. On a hand whose list holds at least one card [is_flush] returns,
    without changing the store, whether every card has the suit of the
    first one, which is whether all the cards have one suit. On an empty
    list it raises [IndexError]. *)
Theorem is_flush_spec (self : Hand.t) (σ : world) (cs : list Card.t) :
  heap σ !! Hand.cards self = Some cs →
  match cs with
  | [] => Hand.is_flush self σ = (Raise IndexError, σ)
  | c0 :: _ =>
      ∃ b, Hand.is_flush self σ = (Ok b, σ)
           ∧ (b = true ↔ ∀ c, c ∈ cs → Card.suit c = Card.suit c0)
           ∧ (b = true ↔
              ∀ c c', c ∈ cs → c' ∈ cs → Card.suit c = Card.suit c')
  end.
Proof.
  intros H. destruct cs as [|c0 cs].
  { unfold Hand.is_flush. by rewrite bind_run, (getitem_run _ _ _ _ H). }
  eexists. split; [by apply is_flush_run|].
  assert (forallb (λ card, bool_decide (Card.suit card = Card.suit c0))
            (c0 :: cs) = true
          ↔ ∀ c, c ∈ c0 :: cs → Card.suit c = Card.suit c0) as Hall.
  { rewrite <-Is_true_true, forallb_True, Forall_forall.
    apply forall_proper. intros c.
    by rewrite Is_true_true, bool_decide_eq_true. }
  split; [done|]. rewrite Hall. split.
  - intros Hc c c' Hin Hin'. by rewrite (Hc c), (Hc c').
  - intros Hc c Hin. apply Hc; [done|left].
Qed.

Lemma is_flush_spec_witness :
  Hand.is_flush sample_hand (world_of []) = (Raise IndexError, world_of [])
  ∧ ∃ b, Hand.is_flush first_hand first_hand_world = (Ok b, first_hand_world)
         ∧ (b = true ↔ ∀ c, c ∈ take 5 standard_deck →
                            Card.suit c = Card.suit (Card.mk "2" "♣")).
Proof.
  split.
  - apply (is_flush_spec sample_hand (world_of []) []). vm_compute. reflexivity.
  - destruct (is_flush_spec first_hand first_hand_world
                (take 5 standard_deck)) as (b & Hrun & Hb & _);
      [vm_compute; reflexivity|].
    exists b. split; assumption.
Defined.

(** X2. A flush of five distinct cards has five different ranks:
    [num_matches] is 0 and none of [is_pair], [is_2pair], [is_trips],
    [is_full_house], [is_quads] holds. *)
Theorem flush_no_matches (self : Hand.t) (σ : world) (cs : list Card.t) :
  heap σ !! Hand.cards self = Some cs → length cs = 5 → NoDup cs →
  Hand.is_flush self σ = (Ok true, σ) →
  Hand.num_matches self σ = (Ok 0, σ)
  ∧ Hand.is_pair self σ = (Ok false, σ)
  ∧ Hand.is_2pair self σ = (Ok false, σ)
  ∧ Hand.is_trips self σ = (Ok false, σ)
  ∧ Hand.is_full_house self σ = (Ok false, σ)
  ∧ Hand.is_quads self σ = (Ok false, σ).
Proof.
  intros H Hlen Hnd Hflush.
  assert (ordered_rank_pairs cs = 0) as Hzero.
  { destruct cs as [|c0 cs']; [done|].
    rewrite (is_flush_run _ _ _ _ H) in Hflush.
    assert (forallb (λ card, bool_decide (Card.suit card = Card.suit c0))
              (c0 :: cs') = true) as Hall by congruence.
    apply Is_true_true, forallb_True in Hall.
    rewrite Forall_forall in Hall.
    apply ordered_pairs_0_NoDup, NoDup_fmap_2_strong; [|done].
    intros [r s] [r' s'] Hin Hin' Hr. simpl in Hr. subst r'.
    apply Hall, bool_decide_unpack in Hin, Hin'. simpl in *. congruence. }
  unfold Hand.is_pair, Hand.is_2pair, Hand.is_trips, Hand.is_full_house,
    Hand.is_quads.
  rewrite !(predicate_run _ _ _ _ H Hlen), (num_matches_run _ _ _ H Hlen).
  by rewrite Hzero.
Qed.

Lemma flush_no_matches_witness :
  Hand.num_matches first_hand first_hand_world = (Ok 0, first_hand_world).
Proof.
  apply (flush_no_matches first_hand first_hand_world (take 5 standard_deck));
    [vm_compute; reflexivity|reflexivity|by_compute|vm_compute; reflexivity].
Defined.

(** ** Straights are runs of consecutive ranks *)

Lemma take_drop_lookup5 {A : Type} (l : list A) (i : nat) (x0 x1 x2 x3 x4 : A) :
  l !! i = Some x0 → l !! (i + 1) = Some x1 → l !! (i + 2) = Some x2 →
  l !! (i + 3) = Some x3 → l !! (i + 4) = Some x4 →
  take 5 (drop i l) = [x0; x1; x2; x3; x4].
Proof.
  intros H0 H1 H2 H3 H4. apply list_eq. intros k.
  destruct (decide (k < 5)) as [Hk|Hk].
  - rewrite lookup_take_lt, lookup_drop by done.
    destruct k as [|[|[|[|[|k]]]]]; [| | | | |lia]; simpl;
      rewrite <-?H0, <-?H1, <-?H2, <-?H3, <-?H4; f_equal; lia.
  - rewrite lookup_take_ge by lia.
    symmetry. apply lookup_ge_None_2. simpl. lia.
Qed.

Lemma consecutive_ranks_ends (lo : nat) (cs : list Card.t) :
  lo + 5 ≤ 13 → Card.rank <$> cs ≡ₚ take 5 (drop lo Card.RANKS) →
  NoDup (Card.rank <$> cs) ∧ lowest cs = lo ∧ highest cs = lo + 4.
Proof.
  intros Hlo Hp. split.
  { rewrite Hp. eapply sublist_NoDup; [apply RANKS_NoDup|].
    etrans; [apply sublist_take|apply sublist_drop]. }
  destruct (Permutation_map_inv _ _ (Permutation_sym Hp)) as (cs' & Hcs' & Hp').
  rewrite (highest_Permutation _ _ Hp'), (lowest_Permutation _ _ Hp').
  clear Hp Hp' cs.
  do 9 (destruct lo as [|lo]; [
    destruct cs' as [|[r0 ?] [|[r1 ?] [|[r2 ?] [|[r3 ?] [|[r4 ?] [|??]]]]]];
      simplify_eq/=; by vm_compute|]).
  lia.
Qed.

Lemma is_straight_consecutive_iff (cs : list Card.t) :
  length cs = 5 → Forall valid cs →
  ordered_rank_pairs cs = 0 ∧ highest cs - lowest cs = 4 ↔
  ∃ lo, lo + 5 ≤ 13 ∧ Card.rank <$> cs ≡ₚ take 5 (drop lo Card.RANKS).
Proof.
  intros Hlen Hvalid. split.
  - intros [Hnd%ordered_pairs_0_NoDup Hdiff].
    destruct (sort_cards_run cs Hvalid) as (r & _ & Hp & Hs).
    assert (length r = 5) as Hlen' by (by rewrite Hp).
    assert (Forall valid r) as Hvalid' by (by rewrite Hp).
    rewrite <-(highest_Permutation _ _ Hp), <-(lowest_Permutation _ _ Hp)
      in Hdiff.
    rewrite <-Hp in Hnd. setoid_rewrite <-Hp. clear Hp Hlen Hvalid cs.
    destruct r as [|a [|b [|c [|d [|e [|??]]]]]]; simplify_eq/=.
    destruct (sorted_ends a b c d e) as (Hlo & Hhi & _);
      [by apply Forall_cons in Hvalid' as [? _]|done|].
    rewrite Hlo, Hhi in Hdiff.
    repeat match goal with
           | H : StronglySorted _ (_ :: _) |- _ =>
               apply StronglySorted_inv in H as [H ?]
           | H : Forall _ (_ :: _) |- _ => apply Forall_cons in H as [? H]
           end.
    repeat match goal with H : valid _ |- _ => destruct H as [H _] end.
    rewrite !NoDup_cons, !not_elem_of_cons in Hnd.
    unfold rank_le in *.
    assert (∀ x y, Card.rank x ∈ Card.RANKS → Card.rank y ∈ Card.RANKS →
                   Card.rank x ≠ Card.rank y → rank_index x ≠ rank_index y)
      as Hne.
    { intros x y Hx Hy Hxy Hi. by apply Hxy, rank_index_inj. }
    assert (rank_index a ≠ rank_index b ∧ rank_index b ≠ rank_index c
            ∧ rank_index c ≠ rank_index d ∧ rank_index d ≠ rank_index e)
      as (? & ? & ? & ?) by (split_and!; apply Hne; tauto).
    exists (rank_index a).
    split; [pose proof (rank_index_lt e ltac:(done)); lia|].
    erewrite take_drop_lookup5; [done|..].
    + by apply index_rank_index.
    + replace (rank_index a + 1) with (rank_index b) by lia.
      by apply index_rank_index.
    + replace (rank_index a + 2) with (rank_index c) by lia.
      by apply index_rank_index.
    + replace (rank_index a + 3) with (rank_index d) by lia.
      by apply index_rank_index.
    + replace (rank_index a + 4) with (rank_index e) by lia.
      by apply index_rank_index.
  - intros (lo & Hlo & Hp).
    destruct (consecutive_ranks_ends lo cs Hlo Hp) as (Hnd & -> & ->).
    split; [by apply ordered_pairs_0_NoDup|lia].
Qed.

(** X3. On a hand of five cards [is_straight] returns true exactly when
    the ranks of the hand are, in some order, five ranks that follow each
    other in [RANKS] (from 2-3-4-5-6 up to 10-J-Q-K-A). *)
Theorem is_straight_consecutive (self : Hand.t) (σ : world)
    (cs : list Card.t) :
  heap σ !! Hand.cards self = Some cs → length cs = 5 → Forall valid cs →
  ∃ b σ',
    Hand.is_straight self σ = (Ok b, σ')
    ∧ (b = true ↔
       ∃ lo, lo + 5 ≤ 13
             ∧ Card.rank <$> cs ≡ₚ take 5 (drop lo Card.RANKS)).
Proof.
  intros H Hlen Hvalid.
  destruct (is_straight_run self σ cs H Hlen Hvalid)
    as (r & _ & _ & _ & _ & Hrun).
  eexists _, _. split; [exact Hrun|].
  rewrite <-(is_straight_consecutive_iff cs Hlen Hvalid).
  by rewrite andb_true_iff, !bool_decide_eq_true.
Qed.

Lemma is_straight_consecutive_witness :
  ∃ σ', Hand.is_straight first_hand first_hand_world = (Ok true, σ').
Proof.
  destruct (is_straight_consecutive first_hand first_hand_world
              (take 5 standard_deck))
    as (b & σ' & Hrun & Hb); [vm_compute; reflexivity|reflexivity|by_compute|].
  exists σ'. rewrite Hrun. do 2 f_equal. apply Hb.
  exists 0. split; [lia|reflexivity].
Defined.

(** ** The order of the cards in a hand *)

Lemma multiplicity_Permutation {A : Type} `{EqDecision A} (r : A)
    (rs rs' : list A) :
  rs ≡ₚ rs' → multiplicity r rs = multiplicity r rs'.
Proof. unfold multiplicity. by intros ->. Qed.

Lemma equal_others_Permutation {A : Type} `{EqDecision A} (rs rs' : list A) :
  rs ≡ₚ rs' → equal_others rs = equal_others rs'.
Proof.
  intros Hp. unfold equal_others.
  rewrite (list_fmap_ext _ (λ r, multiplicity r rs' - 1) rs).
  - by rewrite Hp.
  - intros i x _. by rewrite (multiplicity_Permutation _ _ _ Hp).
Qed.

Lemma equal_others_fmap {A B : Type} `{EqDecision A, EqDecision B}
    (f : A → B) (rs : list A) :
  (∀ x y, x ∈ rs → y ∈ rs → f x = f y → x = y) →
  equal_others (f <$> rs) = equal_others rs.
Proof.
  intros Hinj. unfold equal_others. rewrite <-list_fmap_compose. f_equal.
  apply list_fmap_ext. intros i x Hx%list_elem_of_lookup_2. simpl.
  rewrite multiplicity_fmap; [done|]. intros y Hy. by apply Hinj.
Qed.

Lemma patterns5_equal_others :
  Forall (λ ns, ordered_pairs ns = equal_others ns) patterns5.
Proof. by_compute. Qed.

(** Among five cards the number of ordered pairs of one rank is, summed
    over the cards, the number of other cards of the card's rank. *)
Lemma ordered_pairs_equal_others {A : Type} `{EqDecision A} (rs : list A) :
  length rs = 5 → ordered_pairs rs = equal_others rs.
Proof.
  intros Hlen.
  rewrite <-(ordered_pairs_fmap (first_index rs)) by apply first_index_inj.
  rewrite <-(equal_others_fmap (first_index rs)) by apply first_index_inj.
  apply (proj1 (Forall_forall _ _) patterns5_equal_others).
  by apply pattern_elem_of_patterns5.
Qed.

Lemma ordered_rank_pairs_Permutation (cs cs' : list Card.t) :
  length cs = 5 → cs ≡ₚ cs' → ordered_rank_pairs cs = ordered_rank_pairs cs'.
Proof.
  intros Hlen Hp. unfold ordered_rank_pairs.
  rewrite !ordered_pairs_equal_others
    by (by rewrite length_fmap, <-?Hp).
  apply equal_others_Permutation. by rewrite Hp.
Qed.

Lemma flush_bool_iff (c0 : Card.t) (cs : list Card.t) :
  forallb (λ card, bool_decide (Card.suit card = Card.suit c0)) (c0 :: cs)
    = true
  ↔ ∀ c c', c ∈ c0 :: cs → c' ∈ c0 :: cs → Card.suit c = Card.suit c'.
Proof.
  rewrite <-Is_true_true, forallb_True, Forall_forall. split.
  - intros Hall c c' Hc%Hall%bool_decide_unpack Hc'%Hall%bool_decide_unpack.
    congruence.
  - intros Hall c Hc. apply bool_decide_pack, Hall; [done|left].
Qed.

(** X5. The order of the cards in a hand does not matter: two hands of
    five cards that hold the same cards in different orders get the same
    result from [num_matches], from the five predicates on it, from
    [is_flush] and from [is_straight]. *)
Theorem hand_order_irrelevant (self self' : Hand.t) (σ : world)
    (cs cs' : list Card.t) :
  heap σ !! Hand.cards self = Some cs →
  heap σ !! Hand.cards self' = Some cs' →
  cs ≡ₚ cs' → length cs = 5 →
  Hand.num_matches self σ = Hand.num_matches self' σ
  ∧ Hand.is_pair self σ = Hand.is_pair self' σ
  ∧ Hand.is_2pair self σ = Hand.is_2pair self' σ
  ∧ Hand.is_trips self σ = Hand.is_trips self' σ
  ∧ Hand.is_full_house self σ = Hand.is_full_house self' σ
  ∧ Hand.is_quads self σ = Hand.is_quads self' σ
  ∧ Hand.is_flush self σ = Hand.is_flush self' σ
  ∧ (Forall valid cs →
     (Hand.is_straight self σ).1 = (Hand.is_straight self' σ).1).
Proof.
  intros H H' Hp Hlen.
  assert (length cs' = 5) as Hlen' by (by rewrite <-Hp).
  pose proof (ordered_rank_pairs_Permutation cs cs' Hlen Hp) as Hpairs.
  unfold Hand.is_pair, Hand.is_2pair, Hand.is_trips, Hand.is_full_house,
    Hand.is_quads.
  rewrite !(predicate_run _ _ _ _ H Hlen), !(predicate_run _ _ _ _ H' Hlen').
  rewrite (num_matches_run _ _ _ H Hlen), (num_matches_run _ _ _ H' Hlen').
  rewrite Hpairs. split_and!; [reflexivity..| |].
  - destruct cs as [|c0 cs], cs' as [|c0' cs']; try done.
    rewrite (is_flush_run _ _ _ _ H), (is_flush_run _ _ _ _ H').
    do 2 f_equal. apply eq_true_iff_eq. rewrite !flush_bool_iff.
    by setoid_rewrite Hp.
  - intros Hvalid.
    assert (Forall valid cs') as Hvalid' by (by rewrite <-Hp).
    destruct (is_straight_run self σ cs H Hlen Hvalid)
      as (r & _ & _ & _ & _ & ->).
    destruct (is_straight_run self' σ cs' H' Hlen' Hvalid')
      as (r' & _ & _ & _ & _ & ->).
    simpl. by rewrite Hpairs, (highest_Permutation _ _ Hp),
      (lowest_Permutation _ _ Hp).
Qed.

Lemma hand_order_irrelevant_witness :
  Hand.num_matches sample_hand two_orders_world
  = Hand.num_matches second_hand two_orders_world
  ∧ (Hand.is_straight sample_hand two_orders_world).1
    = (Hand.is_straight second_hand two_orders_world).1.
Proof.
  destruct (hand_order_irrelevant sample_hand second_hand two_orders_world
              ace_low (reverse ace_low))
    as (Hn & _ & _ & _ & _ & _ & _ & Hs);
    [vm_compute; reflexivity|vm_compute; reflexivity|by_compute|reflexivity|].
  split; [exact Hn|]. apply Hs. by_compute.
Defined.

(** ** Hands of another size *)

Lemma filter_ext_elem_of {A : Type} (P Q : A → Prop)
    `{∀ x, Decision (P x), ∀ x, Decision (Q x)} (l : list A) :
  (∀ x, x ∈ l → P x ↔ Q x) → filter P l = filter Q l.
Proof.
  induction l as [|x l IH]; intros HPQ; [done|].
  rewrite !filter_cons.
  assert (P x ↔ Q x) as Hx by (apply HPQ; left).
  rewrite (decide_ext _ _ _ _ Hx).
  rewrite IH; [done|]. intros y Hy. apply HPQ. by right.
Qed.

Section short_hand.

Context (self : Hand.t) (σ : world) (cs : list Card.t).
Hypothesis Hcards : heap σ !! Hand.cards self = Some cs.

Let body (i : nat) : nat → nat → M nat := λ matches j,
  if bool_decide (i ≠ j) then
    ci ← getitem (Hand.cards self) i;
    cj ← getitem (Hand.cards self) j;
    if bool_decide (Card.rank ci = Card.rank cj)
    then mret (matches + 1) else mret matches
  else mret matches.

Lemma body_cases (i j matches : nat) :
  ∃ r, body i matches j σ = (r, σ)
       ∧ (r = Raise IndexError ∨ ∃ matches', r = Ok matches')
       ∧ (i ≠ j → length cs ≤ i ∨ length cs ≤ j → r = Raise IndexError).
Proof.
  unfold body. case_bool_decide as Hij.
  2: { eexists. split; [done|]. split; [by eauto|]. done. }
  rewrite bind_run, (getitem_run _ _ _ _ Hcards).
  destruct (cs !! i) as [ci|] eqn:Hi.
  2: { eexists. split; [done|]. split; [by left|done]. }
  rewrite bind_run, (getitem_run _ _ _ _ Hcards).
  destruct (cs !! j) as [cj|] eqn:Hj.
  2: { eexists. split; [done|]. split; [by left|done]. }
  apply lookup_lt_Some in Hi, Hj.
  case_bool_decide; (eexists; split; [done|]; split; [by eauto|lia]).
Qed.

Lemma inner_loop_raises (i : nat) (js : list nat) (matches : nat) :
  (∃ j, j ∈ js ∧ i ≠ j ∧ (length cs ≤ i ∨ length cs ≤ j)) →
  foldlM (M:=M) (body i) matches js σ = (Raise IndexError, σ).
Proof.
  revert matches. induction js as [|a js IH]; intros matches (j & Hj & Hij & Hout).
  { by apply elem_of_nil in Hj. }
  cbn [foldlM].
  destruct (body_cases i a matches) as (r & Hrun & [->|[m' ->]] & Hraise).
  - by rewrite (bind_Raise _ _ _ _ _ Hrun).
  - rewrite (bind_Ok _ _ _ _ _ Hrun). apply IH. exists j.
    apply elem_of_cons in Hj as [->|Hj]; [|done].
    by specialize (Hraise Hij Hout).
Qed.

Lemma num_matches_short :
  length cs < 5 → Hand.num_matches self σ = (Raise IndexError, σ).
Proof.
  intros Hlen. unfold Hand.num_matches. cbn [seq foldlM].
  apply bind_Raise.
  apply (inner_loop_raises 0 [0; 1; 2; 3; 4] 0).
  exists (if decide (length cs = 0) then 1 else length cs).
  destruct (decide (length cs = 0)) as [Hz|Hnz]; (split_and!; [|lia..]);
    apply list_elem_of_In; simpl; lia.
Qed.

Lemma num_matches_long :
  5 ≤ length cs →
  Hand.num_matches self σ = (Ok (ordered_rank_pairs (take 5 cs)), σ).
Proof.
  intros Hlen.
  assert (Forall (λ i, i < length cs) (seq 0 5)) as Hseq.
  { apply Forall_seq. lia. }
  unfold Hand.num_matches.
  rewrite (outer_loop_run self σ cs Hcards (seq 0 5) (seq 0 5) 0 Hseq Hseq).
  do 2 f_equal. unfold ordered_rank_pairs, ordered_pairs.
  rewrite length_fmap, length_take, Nat.min_l by done.
  cbn [Nat.add]. f_equal.
  apply filter_ext_elem_of. intros [i j] [Hi Hj]%ordered_pairs_elem_of.
  cbn [fst snd]. by rewrite !list_lookup_fmap, !lookup_take_lt by done.
Qed.

End short_hand.

(** X4. [num_matches] looks at the positions 0 to 4 of the hand's list,
    whatever its length. On a list of more than five cards it counts among
    the first five and ignores the rest. On a list of fewer than five cards
    it raises [IndexError] and leaves the store alone, and so do the five
    predicates on it; [is_straight] raises [IndexError] too. *)
Theorem num_matches_bounds (self : Hand.t) (σ : world) (cs : list Card.t) :
  heap σ !! Hand.cards self = Some cs →
  (5 ≤ length cs →
     Hand.num_matches self σ = (Ok (ordered_rank_pairs (take 5 cs)), σ)) ∧
  (length cs < 5 →
     Hand.num_matches self σ = (Raise IndexError, σ)
     ∧ Hand.is_pair self σ = (Raise IndexError, σ)
     ∧ Hand.is_2pair self σ = (Raise IndexError, σ)
     ∧ Hand.is_trips self σ = (Raise IndexError, σ)
     ∧ Hand.is_full_house self σ = (Raise IndexError, σ)
     ∧ Hand.is_quads self σ = (Raise IndexError, σ)
     ∧ (Forall valid cs → (Hand.is_straight self σ).1 = Raise IndexError)).
Proof.
  intros H. split; [by apply num_matches_long|]. intros Hlen.
  pose proof (num_matches_short self σ cs H Hlen) as Hnm.
  split_and!; [done|by apply bind_Raise..|].
  intros Hvalid. destruct (sort_cards_run cs Hvalid) as (r & Hr & Hp & _).
  unfold Hand.is_straight.
  rewrite (bind_Ok _ _ _ _ _ (sorted_run _ _ _ _ H Hr)).
  rewrite bind_run, (getitem_run _ _ _ r) by apply lookup_insert_eq.
  rewrite lookup_ge_None_2; [done|]. rewrite Hp. lia.
Qed.

Lemma num_matches_bounds_witness :
  Hand.num_matches sample_hand (world_of standard_deck)
  = (Ok 0, world_of standard_deck)
  ∧ Hand.num_matches sample_hand (world_of [Card.mk "A" "♠"])
    = (Raise IndexError, world_of [Card.mk "A" "♠"]).
Proof.
  split.
  - rewrite (proj1 (num_matches_bounds sample_hand (world_of standard_deck)
                      standard_deck ltac:(vm_compute; reflexivity)));
      [reflexivity|vm_compute; lia].
  - apply (num_matches_bounds sample_hand (world_of [Card.mk "A" "♠"])
             [Card.mk "A" "♠"]); [vm_compute; reflexivity|simpl; lia].
Defined.

(** ** What the operations on a deck touch *)

Lemma deal_state (deck : Deck.t) (σ : world) :
  (Deck.deal deck σ).2 = σ
  ∨ ∃ c cs, heap σ !! Deck.cards deck = Some (c :: cs)
            ∧ Deck.deal deck σ = (Ok c, set_heap <[Deck.cards deck:=cs]> σ).
Proof.
  destruct (heap σ !! Deck.cards deck) as [[|c cs]|] eqn:H.
  - left. by rewrite (deal_nil _ _ H).
  - right. exists c, cs. by rewrite (deal_cons _ _ _ _ H).
  - left. unfold Deck.deal, list_pop, Deck.cards in *.
    rewrite bind_run. unfold load. by rewrite H.
Qed.

Lemma shuffle_state (deck : Deck.t) (σ : world) :
  heap (Deck.shuffle deck σ).2 = heap σ
  ∨ ∃ cs cs', heap σ !! Deck.cards deck = Some cs ∧ cs' ≡ₚ cs
              ∧ heap (Deck.shuffle deck σ).2
                = <[Deck.cards deck:=cs']> (heap σ).
Proof.
  destruct (heap σ !! Deck.cards deck) as [cs|] eqn:H.
  - right. exists cs. eexists. rewrite (Deck_shuffle_run _ _ _ H).
    split_and!; [done|apply shuffle_list_Permutation|done].
  - left. unfold Deck.shuffle, random_shuffle, Deck.cards in *.
    rewrite bind_run. unfold load. by rewrite H.
Qed.

Lemma Hand_init_missing (deck : Deck.t) (σ : world) :
  heap σ !! Deck.cards deck = None →
  Hand.__init__ deck σ = (Raise SystemError, σ).
Proof.
  intros H. unfold Hand.__init__. apply bind_Raise.
  change (seq 0 5) with (0 :: seq 1 4). rewrite mapM_cons_run.
  apply bind_Raise. unfold Deck.deal, list_pop, Deck.cards in *.
  apply bind_Raise. unfold load. by rewrite H.
Qed.

(** X6. [deal()], [shuffle()] and [Hand(deck)] change no list but the
    deck's own, whether they return or raise, and [Deck()] changes no list
    at all: hands dealt earlier and other decks keep their cards. *)
Theorem deck_operations_frame (deck : Deck.t) (σ : world) (l : loc) :
  l ≠ Deck.cards deck → is_Some (heap σ !! l) →
  heap (Deck.deal deck σ).2 !! l = heap σ !! l
  ∧ heap (Deck.shuffle deck σ).2 !! l = heap σ !! l
  ∧ heap (Hand.__init__ deck σ).2 !! l = heap σ !! l
  ∧ heap (Deck.__init__ σ).2 !! l = heap σ !! l.
Proof.
  intros Hne Hl. split_and!.
  4: { rewrite Deck_init_run. simpl. apply lookup_insert_ne. intros Heq.
       pose proof (fresh_loc_fresh (heap σ)) as Hf. rewrite Heq in Hf.
       destruct Hl as [? Hl]. congruence. }
  - destruct (deal_state deck σ) as [->|(c & cs & _ & ->)]; [done|].
    by apply lookup_insert_ne.
  - destruct (shuffle_state deck σ) as [->|(cs & cs' & _ & _ & ->)]; [done|].
    by apply lookup_insert_ne.
  - destruct (heap σ !! Deck.cards deck) as [cs|] eqn:H.
    2: { by rewrite (Hand_init_missing _ _ H). }
    rewrite (Hand_init_run _ _ _ H).
    destruct (decide (5 ≤ length cs)); simpl.
    + rewrite !lookup_insert_ne; [done..|].
      intros Heq.
      pose proof (fresh_loc_fresh (<[Deck.cards deck:=drop 5 cs]> (heap σ)))
        as Hf.
      rewrite Heq, lookup_insert_ne in Hf by done.
      destruct Hl as [? Hl]. congruence.
    + by rewrite lookup_insert_ne.
Qed.

Lemma deck_operations_frame_witness :
  heap (Hand.__init__ new_deck first_hand_world).2 !! Hand.cards first_hand
  = Some (take 5 standard_deck).
Proof.
  destruct (deck_operations_frame new_deck first_hand_world
              (Hand.cards first_hand)) as (_ & _ & Hframe & _);
    [done|vm_compute; eauto|].
  rewrite Hframe. vm_compute. reflexivity.
Defined.

(** ** The cards of a deck stay distinct *)

(** X7. A deck that holds distinct cards of the standard deck keeps doing
    so. A card that [deal()] returns was the front card and is no longer in
    the deck; [shuffle()] keeps the number of cards; the five cards of a
    [Hand(deck)] are no longer in the deck. So no card comes twice out of a
    deck. *)
Theorem deck_invariant (deck : Deck.t) (σ : world) (ds : list Card.t) :
  heap σ !! Deck.cards deck = Some ds → NoDup ds → ds ⊆ standard_deck →
  (∀ c σ', Deck.deal deck σ = (Ok c, σ') →
     ∃ ds', heap σ' !! Deck.cards deck = Some ds' ∧ ds = (c :: ds')
            ∧ (c ∉ ds') ∧ NoDup ds' ∧ ds' ⊆ standard_deck) ∧
  (∃ ds', heap (Deck.shuffle deck σ).2 !! Deck.cards deck = Some ds'
          ∧ length ds' = length ds ∧ NoDup ds' ∧ ds' ⊆ standard_deck) ∧
  (∀ hand σ', Hand.__init__ deck σ = (Ok hand, σ') →
     ∃ ds', heap σ' !! Deck.cards deck = Some ds'
            ∧ heap σ' !! Hand.cards hand = Some (take 5 ds)
            ∧ ds = take 5 ds ++ ds'
            ∧ (∀ c, c ∈ take 5 ds → c ∉ ds')
            ∧ NoDup ds' ∧ ds' ⊆ standard_deck).
Proof.
  intros H Hnd Hsub. split_and!.
  - intros c σ' Hdeal. destruct ds as [|c' ds'].
    { rewrite (deal_nil _ _ H) in Hdeal. done. }
    rewrite (deal_cons _ _ _ _ H) in Hdeal. injection Hdeal as <- <-.
    exists ds'. apply NoDup_cons in Hnd as [? ?].
    split_and!; [apply lookup_insert_eq|done..|].
    intros x Hx. apply Hsub. by right.
  - rewrite (Deck_shuffle_run _ _ _ H). eexists.
    split; [apply lookup_insert_eq|].
    pose proof (shuffle_list_Permutation (random σ) (drawn σ)
                  (length ds - 1) ds) as Hp.
    split_and!; [by rewrite Hp..|]. intros c. rewrite Hp. apply Hsub.
  - intros hand σ'. rewrite (Hand_init_run _ _ _ H).
    destruct (decide (5 ≤ length ds)); [|done]. cbv zeta. intros [= <- <-].
    exists (drop 5 ds).
    rewrite <-(take_drop 5 ds) in Hnd. apply NoDup_app in Hnd as (? & ? & ?).
    split_and!; [|apply lookup_insert_eq|by rewrite take_drop|done..|].
    + simpl. rewrite lookup_insert_ne, lookup_insert_eq; [done|].
      intros Heq.
      pose proof (fresh_loc_fresh (<[Deck.cards deck:=drop 5 ds]> (heap σ)))
        as Hf.
      by rewrite Heq, lookup_insert_eq in Hf.
    + intros c Hc. apply Hsub. by eapply subseteq_drop.
Qed.

Lemma deck_invariant_witness :
  ∃ ds', heap (Deck.shuffle new_deck new_deck_world).2 !! Deck.cards new_deck
         = Some ds'
         ∧ length ds' = 52 ∧ NoDup ds' ∧ ds' ⊆ standard_deck.
Proof.
  apply (deck_invariant new_deck new_deck_world standard_deck);
    [vm_compute; reflexivity|by_compute|exact (λ c Hc, Hc)].
Defined.

(** ** Two hands from one deck *)

(** X8. Two hands dealt one after the other from a deck of at least ten
    distinct cards hold the first five and the next five cards, in lists of
    their own; they share no card, and the deck keeps the rest. *)
Theorem two_hands_spec (deck : Deck.t) (σ : world) (ds : list Card.t) :
  heap σ !! Deck.cards deck = Some ds → 10 ≤ length ds → NoDup ds →
  ∃ h1 h2 σ',
    two_hands deck σ = (Ok (h1, h2), σ')
    ∧ heap σ' !! Hand.cards h1 = Some (take 5 ds)
    ∧ heap σ' !! Hand.cards h2 = Some (take 5 (drop 5 ds))
    ∧ heap σ' !! Deck.cards deck = Some (drop 10 ds)
    ∧ Hand.cards h1 ≠ Hand.cards h2
    ∧ ∀ c, c ∈ take 5 ds → c ∉ take 5 (drop 5 ds).
Proof.
  intros H Hlen Hnd. unfold two_hands.
  rewrite bind_run, (Hand_init_run _ _ _ H), decide_True by lia.
  cbv beta iota zeta.
  set (ld := Deck.cards deck) in *.
  set (σ1 := set_heap <[ld:=drop 5 ds]> σ). set (l1 := fresh_loc (heap σ1)).
  set (σ2 := set_heap <[l1:=take 5 ds]> σ1).
  assert (l1 ≠ ld) as Hl1.
  { intros Heq. pose proof (fresh_loc_fresh (heap σ1)) as Hf. fold l1 in Hf.
    rewrite Heq in Hf. simpl in Hf. by rewrite lookup_insert_eq in Hf. }
  assert (heap σ2 !! Deck.cards deck = Some (drop 5 ds)) as H2.
  { simpl. rewrite lookup_insert_ne by done. apply lookup_insert_eq. }
  rewrite bind_run, (Hand_init_run _ _ _ H2), decide_True
    by (rewrite length_drop; lia).
  cbv beta iota zeta. fold ld.
  set (σ3 := set_heap <[ld:=drop 5 (drop 5 ds)]> σ2).
  set (l2 := fresh_loc (heap σ3)).
  assert (heap σ3 !! l1 = Some (take 5 ds)) as H3.
  { simpl. rewrite lookup_insert_ne by done. apply lookup_insert_eq. }
  assert (l2 ≠ l1) as Hl2.
  { intros Heq. pose proof (fresh_loc_fresh (heap σ3)) as Hf. fold l2 in Hf.
    rewrite Heq in Hf. congruence. }
  assert (l2 ≠ ld) as Hl2'.
  { intros Heq. pose proof (fresh_loc_fresh (heap σ3)) as Hf. fold l2 in Hf.
    rewrite Heq in Hf. simpl in Hf. by rewrite lookup_insert_eq in Hf. }
  eexists _, _, _. split; [reflexivity|]. cbn [Hand.cards Hand._cards].
  split_and!.
  - simpl. by rewrite lookup_insert_ne by done.
  - apply lookup_insert_eq.
  - simpl. rewrite lookup_insert_ne, lookup_insert_eq by done.
    by rewrite drop_drop.
  - done.
  - rewrite <-(take_drop 5 ds) in Hnd. apply NoDup_app in Hnd as (_ & Hd & _).
    intros c Hc Hc'. apply (Hd c Hc). by eapply subseteq_take.
Qed.

Lemma two_hands_spec_witness :
  ∃ h1 h2 σ',
    two_hands new_deck new_deck_world = (Ok (h1, h2), σ')
    ∧ heap σ' !! Hand.cards h1 = Some (take 5 standard_deck)
    ∧ heap σ' !! Hand.cards h2 = Some (take 5 (drop 5 standard_deck)).
Proof.
  destruct (two_hands_spec new_deck new_deck_world standard_deck)
    as (h1 & h2 & σ' & Hrun & H1 & H2 & _);
    [vm_compute; reflexivity|vm_compute; lia|by_compute|].
  exists h1, h2, σ'. split_and!; assumption.
Defined.

(** ** The loop with any predicate *)






(** ** The predicates only read *)

Lemma read_only_predicate (self : Hand.t) (v : nat) :
  read_only (n ← Hand.num_matches self; mret (bool_decide (n = v))).
Proof.
  apply read_only_bind; [apply read_only_num_matches|].
  intros n. apply read_only_ret.
Qed.

(** X12. [num_matches], the five predicates on it and [is_flush] never
    change the store, whatever the hand's list holds and whether they
    return or raise. *)
Theorem predicates_read_only (self : Hand.t) :
  read_only (Hand.num_matches self)
  ∧ read_only (Hand.is_pair self) ∧ read_only (Hand.is_2pair self)
  ∧ read_only (Hand.is_trips self) ∧ read_only (Hand.is_full_house self)
  ∧ read_only (Hand.is_quads self) ∧ read_only (Hand.is_flush self).
Proof.
  split_and!; [apply read_only_num_matches|apply read_only_predicate..|].
  apply read_only_bind; [apply read_only_getitem|intros c0].
  apply read_only_bind; [apply read_only_load|intros cs].
  apply read_only_ret.
Qed.
